(** * BioDynaMo core: execution context, model initializer, interaction force,
      uniform grid environment and diffusion grid.

    A shallow embedding of the C++ sources, one module per class.  The
    simulation's ambient state ([Simulation::GetActive()]) is passed
    explicitly; [real_t] is idealised as the rationals. *)

From Stdlib Require Import ZArith QArith Qround Qabs Lia Lqa.
From stdpp Require Import base tactics option list gmap strings.

Local Open Scope Z_scope.

(** ** Shared vocabulary *)

(** [SoUid] / [AgentUid]: a 64-bit unsigned identifier. *)
Abbreviation SoUid := N (only parsing).

(** [real_t]: the simulation's floating-point type, idealised as a rational
    number; comparisons are the exact ones. *)
Abbreviation real_t := Q (only parsing).

(** ** [real_t] and [MathArray] *)

Module MathArray.

Local Open Scope Q_scope.

(** Comparison operators of [real_t]. *)
Definition real_lt (x y : real_t) : bool := negb (Qle_bool y x).
Definition real_le (x y : real_t) : bool := Qle_bool x y.
Infix "<?" := real_lt (at level 70, no associativity) : Q_scope.
Infix "<=?" := real_le (at level 70, no associativity) : Q_scope.

(** [std::min]. *)
Definition std_min (a b : real_t) : real_t := if b <? a then b else a.

(** [Real3] and [Real4] are [MathArray<real_t, N>]; the operators used by
    the force act on every entry. *)
Record Real3 : Type := R3 { r3_0 : real_t; r3_1 : real_t; r3_2 : real_t }.
Record Real4 : Type :=
  R4 { r4_0 : real_t; r4_1 : real_t; r4_2 : real_t; r4_3 : real_t }.

Definition plus3 (a b : Real3) : Real3 :=
  R3 (r3_0 a + r3_0 b) (r3_1 a + r3_1 b) (r3_2 a + r3_2 b).
Definition minus3 (a b : Real3) : Real3 :=
  R3 (r3_0 a - r3_0 b) (r3_1 a - r3_1 b) (r3_2 a - r3_2 b).
Definition times3 (a : Real3) (k : real_t) : Real3 :=
  R3 (r3_0 a * k) (r3_1 a * k) (r3_2 a * k).
Definition times4 (a : Real4) (k : real_t) : Real4 :=
  R4 (r4_0 a * k) (r4_1 a * k) (r4_2 a * k) (r4_3 a * k).
Definition EntryWiseProduct (a b : Real3) : Real3 :=
  R3 (r3_0 a * r3_0 b) (r3_1 a * r3_1 b) (r3_2 a * r3_2 b).
Definition Sum (a : Real3) : real_t := r3_0 a + r3_1 a + r3_2 a.

End MathArray.

Export MathArray.

(** ** Outcomes of a call

    A call either returns a value and the new state or terminates the
    process with a diagnostic ([Log::Fatal]). *)

Inductive Outcome (S A : Type) : Type :=
| Ok (a : A) (s : S)
| Aborted (where_ message : string) (s : S).
Arguments Ok {S A} a s.
Arguments Aborted {S A} where_ message s.

Definition M (S A : Type) : Type := S → Outcome S A.

Definition ret {S A : Type} (a : A) : M S A := λ s, Ok a s.

Definition bind {S A B : Type} (m : M S A) (k : A → M S B) : M S B :=
  λ s, match m s with
       | Ok a s' => k a s'
       | Aborted w msg s' => Aborted w msg s'
       end.

Definition get {S : Type} : M S S := λ s, Ok s s.
Definition modify {S : Type} (f : S → S) : M S unit := λ s, Ok tt (f s).

Declare Scope sim_scope.
Delimit Scope sim_scope with sim.
Notation "'let*' x := m 'in' k" := (bind m (λ x, k))
  (at level 10, x pattern, m at level 100, k at level 200) : sim_scope.
Notation "m ;; k" := (bind m (λ _, k))
  (at level 100, k at level 200, right associativity) : sim_scope.

(** ** [Log] *)

Module Log.

Inductive Severity : Type := kWarning | kError.

Record Entry : Type := mkEntry {
  severity : Severity;
  location : string;
  text : string
}.

(** Modelled from the spec: [Log] (core/util/log.h) is not part of the
    sources.  A warning or an error is logged and the caller goes on; a
    fatal error terminates the process with a diagnostic message. *)
Definition Fatal {S A : Type} (where_ message : string) : M S A :=
  λ s, Aborted where_ message s.

End Log.

(** * [ApproximateExecCtxt]: staged creation and removal of sim objects *)

Module ApproximateExecCtxt.

Section ExecCtxt.

(** The sim object type is a template parameter of the context; all the
    context needs from it is [GetUid]. *)
Context {TSo : Type}.
Variable GetUid : TSo → SoUid.

(** Modelled from the spec: [ResourceManager] (resource_manager.h) is not part
    of the sources; it is the authoritative agent collection, a sequence of
    sim objects addressed by identifier.  [push_back] appends, [Remove]
    removes the identifier from the collection, [Contains] and
    [GetSimObject] look an identifier up, [ApplyOnAllElements] visits the
    elements in storage order and [Clear] empties the collection. *)
Definition ResourceManager : Type := list TSo.

Definition push_back (rm : ResourceManager) (so : TSo) : ResourceManager :=
  rm ++ [so].

Definition Remove (rm : ResourceManager) (uid : SoUid) : ResourceManager :=
  List.filter (λ so, negb (N.eqb (GetUid so) uid)) rm.

Definition Contains (rm : ResourceManager) (uid : SoUid) : bool :=
  existsb (λ so, N.eqb (GetUid so) uid) rm.

Definition GetSimObjectRm (rm : ResourceManager) (uid : SoUid) : option TSo :=
  List.find (λ so, N.eqb (GetUid so) uid) rm.

Definition ApplyOnAllElements {S : Type} (f : TSo → S → S)
    (rm : ResourceManager) (s : S) : S :=
  foldl (λ acc so, f so acc) s rm.

Definition Clear (rm : ResourceManager) : ResourceManager := [].

(** The state the context works on: the active simulation's resource manager
    and the two private members [remove_] and [new_sim_objects_]. *)
Record Ctxt : Type := mkCtxt {
  rm : ResourceManager;
  remove_ : list SoUid;
  new_sim_objects_ : ResourceManager
}.

(** [TearDownIteration]: new sim objects are pushed to the resource manager
    and the staging manager is cleared; then every uid of [remove_] is
    removed and [remove_] is cleared. *)
Definition TearDownIteration (c : Ctxt) : Ctxt :=
  let rm1 := ApplyOnAllElements (λ sim_object r, push_back r sim_object)
               (new_sim_objects_ c) (rm c) in
  let new1 := Clear (new_sim_objects_ c) in
  let rm2 := foldl (λ r uid, Remove r uid) rm1 (remove_ c) in
  let remove1 : list SoUid := [] in
  {| rm := rm2; remove_ := remove1; new_sim_objects_ := new1 |}.

(** [SetupIteration]: the first iteration might have uncommitted changes. *)
Definition SetupIteration (c : Ctxt) : Ctxt := TearDownIteration c.

(** [New]: the object is constructed by the caller and staged. *)
Definition New (c : Ctxt) (so : TSo) : Ctxt * option TSo :=
  let uid := GetUid so in
  let c' := {| rm := rm c; remove_ := remove_ c;
               new_sim_objects_ := push_back (new_sim_objects_ c) so |} in
  (c', GetSimObjectRm (new_sim_objects_ c') uid).

(** [GetSimObject]: a uid of a new object not yet in the resource manager is
    served from the staging manager, any other from the resource manager. *)
Definition GetSimObject (c : Ctxt) (uid : SoUid) : option TSo :=
  if Contains (new_sim_objects_ c) uid
  then GetSimObjectRm (new_sim_objects_ c) uid
  else GetSimObjectRm (rm c) uid.

Definition RemoveFromSimulation (c : Ctxt) (uid : SoUid) : Ctxt :=
  {| rm := rm c; remove_ := remove_ c ++ [uid];
     new_sim_objects_ := new_sim_objects_ c |}.

(** *** Facts about the resource manager *)

Lemma ApplyOnAllElements_push_back (staged r : ResourceManager) :
  ApplyOnAllElements (λ so acc, push_back acc so) staged r = r ++ staged.
Proof.
  unfold ApplyOnAllElements.
  revert r; induction staged as [|so staged IH]; intros r; simpl.
  - by rewrite app_nil_r.
  - rewrite IH. unfold push_back. by rewrite <- app_assoc.
Qed.

Lemma Remove_all_filter (uids : list SoUid) (r : ResourceManager) :
  foldl (λ acc uid, Remove acc uid) r uids
  = List.filter (λ so, negb (existsb (N.eqb (GetUid so)) uids)) r.
Proof.
  revert r; induction uids as [|u uids IH]; intros r; simpl.
  - induction r as [|so r IHr]; simpl; [done | by rewrite <- IHr].
  - rewrite IH. unfold Remove.
    induction r as [|so r IHr]; simpl; [done|].
    destruct (N.eqb (GetUid so) u); simpl.
    + exact IHr.
    + destruct (existsb (N.eqb (GetUid so)) uids); simpl; [exact IHr|].
      by rewrite IHr.
Qed.

Lemma existsb_eqb_elem_of (u : SoUid) (uids : list SoUid) :
  existsb (N.eqb u) uids = true ↔ u ∈ uids.
Proof.
  rewrite existsb_exists. split.
  - intros (x & Hin & Heq). apply N.eqb_eq in Heq. subst x.
    by apply list_elem_of_In.
  - intros Hin. exists u. split; [by apply list_elem_of_In | apply N.eqb_refl].
Qed.

Lemma Contains_spec (r : ResourceManager) (uid : SoUid) :
  Contains r uid = true ↔ ∃ so, so ∈ r ∧ GetUid so = uid.
Proof.
  unfold Contains. rewrite existsb_exists. split.
  - intros (so & Hin & Heq). exists so. split; [by apply list_elem_of_In|].
    by apply N.eqb_eq.
  - intros (so & Hin & Heq). exists so. split; [by apply list_elem_of_In|].
    by apply N.eqb_eq.
Qed.

(** C2: commit appends every staged object to the resource manager, then
    removes the pending identifiers one after the other, and leaves both
    staging structures empty; an identifier staged for removal is absent
    afterwards, also when its object was created in the same step; objects
    in neither list keep their place: the resource manager is the old one
    followed by the staged objects, without the removed identifiers. *)
Theorem TearDownIteration_commit (c : Ctxt) :
  rm (TearDownIteration c)
    = foldl (λ r uid, Remove r uid) (rm c ++ new_sim_objects_ c) (remove_ c)
  ∧ new_sim_objects_ (TearDownIteration c) = []
  ∧ remove_ (TearDownIteration c) = []
  ∧ (∀ uid, uid ∈ remove_ c → Contains (rm (TearDownIteration c)) uid = false)
  ∧ (∀ so, GetUid so ∉ remove_ c →
       (so ∈ rm (TearDownIteration c) ↔ so ∈ rm c ∨ so ∈ new_sim_objects_ c))
  ∧ rm (TearDownIteration c)
    = List.filter (λ so, negb (existsb (N.eqb (GetUid so)) (remove_ c)))
        (rm c ++ new_sim_objects_ c).
Proof.
  assert (Hrm : rm (TearDownIteration c)
    = List.filter (λ so, negb (existsb (N.eqb (GetUid so)) (remove_ c)))
        (rm c ++ new_sim_objects_ c)).
  { unfold TearDownIteration; simpl.
    by rewrite ApplyOnAllElements_push_back, Remove_all_filter. }
  split; [|split; [done|split; [done|split; [|split; [|exact Hrm]]]]].
  - unfold TearDownIteration; simpl. by rewrite ApplyOnAllElements_push_back.
  - intros uid Hin. rewrite Hrm.
    destruct (Contains _ uid) eqn:E; [|done]. exfalso.
    apply Contains_spec in E as (so & Hso & Huid).
    apply list_elem_of_In, filter_In in Hso as [_ Hkeep].
    apply negb_true_iff in Hkeep.
    apply existsb_eqb_elem_of in Hin. rewrite <- Huid in Hin. congruence.
  - intros so Hnot. rewrite Hrm.
    rewrite list_elem_of_In, filter_In, <- list_elem_of_In, elem_of_app.
    split; [tauto|]. intros H; split; [done|].
    apply negb_true_iff. destruct (existsb _ _) eqn:E; [|done].
    apply existsb_eqb_elem_of in E. done.
Qed.

(** *** Staging before the commit *)

Lemma GetSimObjectRm_app (r1 r2 : ResourceManager) (uid : SoUid) :
  GetSimObjectRm (r1 ++ r2) uid
  = match GetSimObjectRm r1 uid with
    | Some so => Some so
    | None => GetSimObjectRm r2 uid
    end.
Proof.
  unfold GetSimObjectRm. induction r1 as [|so r1 IH]; simpl; [done|].
  by destruct (N.eqb (GetUid so) uid).
Qed.

Lemma Contains_false_GetSimObjectRm (r : ResourceManager) (uid : SoUid) :
  Contains r uid = false → GetSimObjectRm r uid = None.
Proof.
  unfold Contains, GetSimObjectRm.
  induction r as [|so r IH]; simpl; [done|].
  destruct (N.eqb (GetUid so) uid); simpl; [done | exact IH].
Qed.


Lemma Contains_filter_removed (uids : list SoUid) (r : ResourceManager)
    (uid : SoUid) :
  uid ∈ uids →
  Contains (List.filter (λ so, negb (existsb (N.eqb (GetUid so)) uids)) r) uid
  = false.
Proof.
  intros Hin. destruct (Contains _ uid) eqn:E; [|done]. exfalso.
  apply Contains_spec in E as (so & Hso & Huid).
  apply list_elem_of_In, filter_In in Hso as [_ Hkeep].
  apply negb_true_iff in Hkeep.
  apply existsb_eqb_elem_of in Hin. rewrite <- Huid in Hin. congruence.
Qed.

Lemma GetSimObjectRm_filter_kept (uids : list SoUid) (r : ResourceManager)
    (uid : SoUid) :
  uid ∉ uids →
  GetSimObjectRm
    (List.filter (λ so, negb (existsb (N.eqb (GetUid so)) uids)) r) uid
  = GetSimObjectRm r uid.
Proof.
  intros Hnot. unfold GetSimObjectRm.
  induction r as [|so r IH]; simpl; [done|].
  destruct (existsb (N.eqb (GetUid so)) uids) eqn:E; simpl.
  - apply existsb_eqb_elem_of in E.
    destruct (N.eqb (GetUid so) uid) eqn:E'; [|exact IH].
    apply N.eqb_eq in E'. by rewrite E' in E.
  - by destruct (N.eqb (GetUid so) uid).
Qed.

Lemma TearDownIteration_rm (c : Ctxt) :
  rm (TearDownIteration c)
  = List.filter (λ so, negb (existsb (N.eqb (GetUid so)) (remove_ c)))
      (rm c ++ new_sim_objects_ c).
Proof.
  unfold TearDownIteration; simpl.
  by rewrite ApplyOnAllElements_push_back, Remove_all_filter.
Qed.


(** [RemoveFromSimulation] only notes the uid: every lookup of the step
    still answers as before; after the commit the uid is gone. *)
Theorem RemoveFromSimulation_deferred (c : Ctxt) (uid : SoUid) :
  (∀ u, GetSimObject (RemoveFromSimulation c uid) u = GetSimObject c u)
  ∧ rm (RemoveFromSimulation c uid) = rm c
  ∧ GetSimObject (TearDownIteration (RemoveFromSimulation c uid)) uid = None.
Proof.
  repeat split.
  unfold GetSimObject. rewrite TearDownIteration_rm. simpl.
  apply Contains_false_GetSimObjectRm, Contains_filter_removed.
  apply elem_of_app. right. by apply list_elem_of_singleton.
Qed.

(** A second commit without staged changes in between changes nothing, so
    the [TearDownIteration] that [SetupIteration] runs after a committed
    step is harmless. *)
Theorem TearDownIteration_idempotent (c : Ctxt) :
  TearDownIteration (TearDownIteration c) = TearDownIteration c
  ∧ SetupIteration (TearDownIteration c) = TearDownIteration c.
Proof.
  assert (TearDownIteration (TearDownIteration c) = TearDownIteration c)
    as H; [|by split].
  unfold TearDownIteration, ApplyOnAllElements, Clear. simpl. reflexivity.
Qed.

(** A sim object created during the step, with a uid that is neither staged
    nor in the resource manager nor noted for removal, is in the resource
    manager after the commit. *)
Theorem New_committed (c : Ctxt) (so : TSo) :
  Contains (new_sim_objects_ c) (GetUid so) = false →
  Contains (rm c) (GetUid so) = false →
  GetUid so ∉ remove_ c →
  GetSimObjectRm (rm (TearDownIteration (fst (New c so)))) (GetUid so)
  = Some so
  ∧ GetSimObject (TearDownIteration (fst (New c so))) (GetUid so) = Some so.
Proof.
  intros Hstaged Hrm Hremove.
  assert (GetSimObjectRm (rm (TearDownIteration (fst (New c so))))
            (GetUid so) = Some so) as H.
  { rewrite TearDownIteration_rm. simpl.
    rewrite GetSimObjectRm_filter_kept by done.
    unfold push_back. rewrite !GetSimObjectRm_app.
    rewrite (Contains_false_GetSimObjectRm _ _ Hrm),
      (Contains_false_GetSimObjectRm _ _ Hstaged).
    unfold GetSimObjectRm; simpl. by rewrite N.eqb_refl. }
  split; [done|]. unfold GetSimObject. exact H.
Qed.

(** The commit keeps uids unique: when no uid occurs twice among the
    resource manager and the staged objects, none occurs twice in the
    resource manager afterwards, and the resource manager holds at most the
    old and the staged objects. *)
Theorem TearDownIteration_unique_uids (c : Ctxt) :
  NoDup (List.map GetUid (rm c ++ new_sim_objects_ c)) →
  NoDup (List.map GetUid (rm (TearDownIteration c)))
  ∧ (length (rm (TearDownIteration c))
     ≤ length (rm c) + length (new_sim_objects_ c))%nat.
Proof.
  intros Hnd. rewrite TearDownIteration_rm. split.
  - revert Hnd. generalize (rm c ++ new_sim_objects_ c).
    induction l as [|so l IH]; simpl; [done|].
    intros [Hso Hl]%NoDup_cons. specialize (IH Hl).
    destruct (negb _); simpl; [|done].
    apply NoDup_cons. split; [|done].
    intros Hin. apply Hso.
    apply list_elem_of_In, in_map_iff in Hin as (so' & Heq & Hin).
    apply filter_In in Hin as [Hin _].
    apply list_elem_of_In, in_map_iff. eauto.
  - rewrite <- length_app. apply filter_length_le.
Qed.

End ExecCtxt.

(** Sim objects for running the context: a uid and a name. *)
Definition named (uid : SoUid) (name : string) : SoUid * string :=
  (uid, name).

Definition sample_ctxt : Ctxt :=
  {| rm := [named 0 "a"; named 1 "b"; named 2 "c"];
     remove_ := [1%N];
     new_sim_objects_ := [named 3 "d"] |}.


Lemma New_committed_witness :
  GetSimObjectRm fst
    (rm (TearDownIteration fst (fst (New fst sample_ctxt (named 4 "e")))))
    4%N = Some (named 4 "e")
  ∧ GetSimObject fst
      (TearDownIteration fst (fst (New fst sample_ctxt (named 4 "e")))) 4%N
    = Some (named 4 "e").
Proof.
  apply (New_committed fst sample_ctxt (named 4 "e"));
    [reflexivity | reflexivity |].
  simpl. intros Hin. apply list_elem_of_singleton in Hin. discriminate.
Defined.

Lemma TearDownIteration_unique_uids_witness :
  NoDup (List.map fst (rm (TearDownIteration fst sample_ctxt)))
  ∧ (length (rm (TearDownIteration fst sample_ctxt))
     ≤ length (rm sample_ctxt) + length (new_sim_objects_ sample_ctxt))%nat.
Proof.
  apply (TearDownIteration_unique_uids fst sample_ctxt).
  apply (bool_decide_unpack _). vm_compute. exact I.
Defined.

Example TearDownIteration_sample :
  rm (TearDownIteration fst sample_ctxt)
  = [named 0 "a"; named 2 "c"; named 3 "d"].
Proof. reflexivity. Qed.

End ApproximateExecCtxt.

(** * [ModelInitializer::DefineSubstance] *)

Module ModelInitializer.

Local Open Scope string_scope.
Local Open Scope sim_scope.

(** The two diffusion grids [DefineSubstance] constructs, with the
    constructor arguments it passes. *)
Inductive DiffusionGrid : Type :=
| EulerGrid (substance_id : N) (substance_name : string)
    (diffusion_coeff decay_constant : real_t) (resolution : Z)
| RungeKuttaGrid (substance_id : N) (substance_name : string)
    (diffusion_coeff : real_t) (resolution : Z).

Definition GetContinuumId (g : DiffusionGrid) : N :=
  match g with
  | EulerGrid id _ _ _ _ => id
  | RungeKuttaGrid id _ _ _ => id
  end.

(** Modelled from the spec: runge_kutta_grid.h is not part of the sources;
    the Runge-Kutta variant does not support a nonzero decay constant and
    falls back to zero. *)
Definition GetDecayConstant (g : DiffusionGrid) : real_t :=
  match g with
  | EulerGrid _ _ _ mu _ => mu
  | RungeKuttaGrid _ _ _ _ => 0%Q
  end.

Record Param : Type := mkParam { diffusion_method : string }.

(** What [DefineSubstance] reads and writes of the active simulation. *)
Record Simulation : Type := mkSimulation {
  param : Param;
  continuum_models_ : gmap N DiffusionGrid;
  log : list Log.Entry
}.

Definition Log_Warning (where_ message : string) : M Simulation unit :=
  modify (λ sim, {| param := param sim;
                    continuum_models_ := continuum_models_ sim;
                    log := log sim ++ [Log.mkEntry Log.kWarning where_ message] |}).

Definition Log_Error (where_ message : string) : M Simulation unit :=
  modify (λ sim, {| param := param sim;
                    continuum_models_ := continuum_models_ sim;
                    log := log sim ++ [Log.mkEntry Log.kError where_ message] |}).

(** Modelled from the spec: [ResourceManager::AddContinuum] is not part of the
    sources; it registers the grid with the resource manager, where
    [GetDiffusionGrid] finds it under its substance identifier. *)
Definition AddContinuum (dgrid : DiffusionGrid) : M Simulation unit :=
  modify (λ sim, {| param := param sim;
                    continuum_models_ :=
                      <[GetContinuumId dgrid := dgrid]> (continuum_models_ sim);
                    log := log sim |}).

Definition DefineSubstance (substance_id : N) (substance_name : string)
    (diffusion_coeff decay_constant : real_t) (resolution : Z)
  : M Simulation unit :=
  let* sim := get in
  let param := param sim in
  let* dgrid :=
    if String.eqb (diffusion_method param) "euler" then
      ret (EulerGrid substance_id substance_name diffusion_coeff
             decay_constant resolution)
    else if String.eqb (diffusion_method param) "runge-kutta" then
      (if negb (Qeq_bool decay_constant 0) then
         Log_Warning "ModelInitializer::DefineSubstance"
           "RungeKuttaGrid does not support a decay constant. Using 0."
       else ret tt) ;;
      ret (RungeKuttaGrid substance_id substance_name diffusion_coeff
             resolution)
    else
      Log_Error "ModelInitializer::DefineSubstance"
        ("Diffusion method '" ++ diffusion_method param
           ++ "' does not exist. Defaulting to 'euler'") ;;
      ret (EulerGrid substance_id substance_name diffusion_coeff
             decay_constant resolution) in
  AddContinuum dgrid.

(** *** Facts *)

Definition warning_runge_kutta : Log.Entry :=
  Log.mkEntry Log.kWarning "ModelInitializer::DefineSubstance"
    "RungeKuttaGrid does not support a decay constant. Using 0.".

Definition error_unknown_method (method : string) : Log.Entry :=
  Log.mkEntry Log.kError "ModelInitializer::DefineSubstance"
    ("Diffusion method '" ++ method ++ "' does not exist. Defaulting to 'euler'").

(** The simulation after [DefineSubstance] registered [g] and logged
    [entries]. *)
Definition registered (sim : Simulation) (g : DiffusionGrid)
    (entries : list Log.Entry) : Simulation :=
  {| param := param sim;
     continuum_models_ := <[GetContinuumId g := g]> (continuum_models_ sim);
     log := log sim ++ entries |}.

Lemma DefineSubstance_euler sim id name dc mu res :
  diffusion_method (param sim) = "euler" →
  DefineSubstance id name dc mu res sim
  = Ok tt (registered sim (EulerGrid id name dc mu res) []).
Proof.
  intros Hm. unfold DefineSubstance, bind, get. rewrite Hm. simpl.
  unfold registered. by rewrite app_nil_r.
Qed.

Lemma DefineSubstance_runge_kutta sim id name dc mu res :
  diffusion_method (param sim) = "runge-kutta" →
  DefineSubstance id name dc mu res sim
  = Ok tt (registered sim (RungeKuttaGrid id name dc res)
             (if Qeq_bool mu 0 then [] else [warning_runge_kutta])).
Proof.
  intros Hm. unfold DefineSubstance, bind, get. rewrite Hm. simpl.
  destruct (Qeq_bool mu 0); simpl; unfold registered; simpl;
    [by rewrite app_nil_r | done].
Qed.

Lemma DefineSubstance_other sim id name dc mu res :
  diffusion_method (param sim) ≠ "euler" →
  diffusion_method (param sim) ≠ "runge-kutta" →
  DefineSubstance id name dc mu res sim
  = Ok tt (registered sim (EulerGrid id name dc mu res)
             [error_unknown_method (diffusion_method (param sim))]).
Proof.
  intros He Hr. unfold DefineSubstance, bind, get.
  apply String.eqb_neq in He, Hr. rewrite He, Hr. done.
Qed.

(** C3: with method "runge-kutta" and a nonzero decay constant a warning is
    logged and a Runge-Kutta grid, whose decay constant is zero, is
    constructed; with a method name that is neither "euler" nor
    "runge-kutta" an error is logged and an Euler grid with the given
    parameters is constructed; the call never aborts, and in every case the
    constructed grid is registered with the resource manager. *)
Theorem DefineSubstance_downgrades sim id name dc mu res :
  ∃ g entries,
    DefineSubstance id name dc mu res sim = Ok tt (registered sim g entries)
    ∧ continuum_models_ (registered sim g entries) !! id = Some g
    ∧ (diffusion_method (param sim) = "runge-kutta" → ¬ (mu == 0)%Q →
         g = RungeKuttaGrid id name dc res
         ∧ GetDecayConstant g = 0%Q
         ∧ entries = [warning_runge_kutta])
    ∧ (diffusion_method (param sim) ≠ "euler" →
       diffusion_method (param sim) ≠ "runge-kutta" →
         g = EulerGrid id name dc mu res
         ∧ entries = [error_unknown_method (diffusion_method (param sim))]).
Proof.
  destruct (decide (diffusion_method (param sim) = "euler")) as [He|He];
    [|destruct (decide (diffusion_method (param sim) = "runge-kutta"))
        as [Hr|Hr]].
  - eexists _, _. split; [by apply DefineSubstance_euler|].
    split; [simpl; apply lookup_insert_eq|].
    split; [intros Hr; rewrite He in Hr; discriminate | done].
  - eexists _, _. split; [by apply DefineSubstance_runge_kutta|].
    split; [simpl; apply lookup_insert_eq|].
    split; [|done]. intros _ Hmu. do 2 (split; [done|]).
    destruct (Qeq_bool mu 0) eqn:E; [|done].
    by apply Qeq_bool_iff in E.
  - eexists _, _. split; [by apply DefineSubstance_other|].
    split; [simpl; apply lookup_insert_eq|]. done.
Qed.

(** [DefineSubstance] leaves the parameters alone and adds at most one log
    entry; it adds none exactly when the method is "euler", or is
    "runge-kutta" with a decay constant of zero. *)
Theorem DefineSubstance_quiet sim id name dc mu res :
  ∃ sim',
    DefineSubstance id name dc mu res sim = Ok tt sim'
    ∧ param sim' = param sim
    ∧ (∃ entries, log sim' = (log sim ++ entries)%list
                  ∧ (length entries ≤ 1)%nat
                  ∧ (entries = []
                     ↔ diffusion_method (param sim) = "euler"
                       ∨ (diffusion_method (param sim) = "runge-kutta"
                          ∧ (mu == 0)%Q))).
Proof.
  destruct (decide (diffusion_method (param sim) = "euler")) as [He|He];
    [|destruct (decide (diffusion_method (param sim) = "runge-kutta"))
        as [Hr|Hr]].
  - eexists. split; [by apply DefineSubstance_euler|].
    split; [done|]. exists []. split; [done|]. split; [simpl; lia|].
    split; [by left | done].
  - eexists. split; [by apply DefineSubstance_runge_kutta|].
    split; [done|]. eexists. split; [done|].
    destruct (Qeq_bool mu 0) eqn:E.
    + apply Qeq_bool_iff in E. split; [simpl; lia|].
      split; [by right | done].
    + split; [simpl; lia|]. split; [done|].
      intros [Heu|[_ Hmu]]; [done|].
      apply Qeq_bool_iff in Hmu. congruence.
  - eexists. split; [by apply DefineSubstance_other|].
    split; [done|]. eexists. split; [done|]. split; [simpl; lia|].
    split; [done|]. intros [Heu|[Hrk _]]; done.
Qed.

End ModelInitializer.

(** * [InteractionForce]: pairwise mechanical forces *)

Module InteractionForce.

Local Open Scope Q_scope.
Local Open Scope sim_scope.

(** Modelled from the spec: [Shape] (core/shape.h) is not part of the
    sources; the force supports spheres and cylinders and can be invoked on
    agent shapes outside of these two. *)
Inductive Shape : Type := kSphere | kCylinder | kOtherShape (tag : N).

Definition Shape_eqb (a b : Shape) : bool :=
  match a, b with
  | kSphere, kSphere => true
  | kCylinder, kCylinder => true
  | kOtherShape m, kOtherShape n => N.eqb m n
  | _, _ => false
  end.

(** What the force reads of an agent.  The last four accessors are those of
    [NeuriteElement], read after the static cast of a cylinder. *)
Record Agent : Type := mkAgent {
  GetShape : Shape;
  GetPosition : Real3;
  GetDiameter : real_t;
  ProximalEnd : Real3;
  DistalEnd : Real3;
  GetSpringAxis : Real3;
  GetMassLocation : Real3
}.

(** Library and repository functions the force calls whose code is not part
    of the sources: [std::sqrt], [MathArray::Norm], [Math::GetL2Distance]
    and the simulation's random number generator with its
    [UniformArray<3>(min, max)], every entry of which lies between [min]
    and [max]. *)
Class Externals : Type := mkExternals {
  sqrt : real_t → real_t;
  Norm : Real3 → real_t;
  GetL2Distance : Real3 → Real3 → real_t;
  Random : Type;
  UniformArray3 : real_t → real_t → Random → Real3 * Random;
  UniformArray3_range : ∀ lo hi g, lo <= hi →
    let v := fst (UniformArray3 lo hi g) in
    (lo <= r3_0 v <= hi) ∧ (lo <= r3_1 v <= hi) ∧ (lo <= r3_2 v <= hi)
}.

Section Force.

Context `{Ext : Externals}.

(** The state a force calculation touches: the active simulation's random
    number generator, and a ghost trace that records the divisor of every
    division of [real_t] values, oldest first. *)
Record World : Type := mkWorld {
  random : Random;
  divisors : list real_t
}.

Definition divide (x y : real_t) : M World real_t :=
  λ w, Ok (x / y) {| random := random w; divisors := divisors w ++ [y] |}.

(** [MathArray::operator/(real_t)]. *)
Definition divide3 (a : Real3) (k : real_t) : M World Real3 :=
  let* x := divide (r3_0 a) k in
  let* y := divide (r3_1 a) k in
  let* z := divide (r3_2 a) k in
  ret (R3 x y z).

(** [Simulation::GetActive()->GetRandom()->UniformArray<3>(min, max)]. *)
Definition Random_UniformArray3 (min max : real_t) : M World Real3 :=
  λ w, let '(v, g) := UniformArray3 min max (random w) in
       Ok v {| random := g; divisors := divisors w |}.

Definition ForceBetweenSpheres (sphere_lhs sphere_rhs : Agent)
  : M World Real3 :=
  let ref_mass_location := GetPosition sphere_lhs in
  let ref_diameter := GetDiameter sphere_lhs in
  let ref_iof_coefficient := 0.15 in
  let nb_mass_location := GetPosition sphere_rhs in
  let nb_diameter := GetDiameter sphere_rhs in
  let nb_iof_coefficient := 0.15 in
  let c1 := ref_mass_location in
  let r1 := 0.5 * ref_diameter in
  let c2 := nb_mass_location in
  let r2 := 0.5 * nb_diameter in
  let additional_radius :=
    10.0 * std_min ref_iof_coefficient nb_iof_coefficient in
  let r1 := r1 + additional_radius in
  let r2 := r2 + additional_radius in
  let comp1 := r3_0 c1 - r3_0 c2 in
  let comp2 := r3_1 c1 - r3_1 c2 in
  let comp3 := r3_2 c1 - r3_2 c2 in
  let center_distance :=
    sqrt (comp1 * comp1 + comp2 * comp2 + comp3 * comp3) in
  let delta := r1 + r2 - center_distance in
  if delta <? 0 then
    ret (R3 0.0 0.0 0.0)
  else if center_distance <? 0.00000001 then
    let* force2on1 := Random_UniformArray3 (-3.0) 3.0 in
    ret force2on1
  else
    let* r := divide (r1 * r2) (r1 + r2) in
    let gamma := 1 in
    let k := 2 in
    let f := k * delta - gamma * sqrt (r * delta) in
    let* force_module := divide f center_distance in
    let force2on1 :=
      R3 (force_module * comp1) (force_module * comp2)
         (force_module * comp3) in
    ret force2on1.

Definition ComputeForceOfASphereOnASphere (c1 : Real3) (r1 : real_t)
    (c2 : Real3) (r2 : real_t) : M World Real4 :=
  let comp1 := r3_0 c1 - r3_0 c2 in
  let comp2 := r3_1 c1 - r3_1 c2 in
  let comp3 := r3_2 c1 - r3_2 c2 in
  let distance_between_centers :=
    sqrt (comp1 * comp1 + comp2 * comp2 + comp3 * comp3) in
  let a := r1 + r2 - distance_between_centers in
  if a <? 0 then
    ret (R4 0.0 0.0 0.0 0.0)
  else if distance_between_centers <? 0.00000001 then
    let* force2on1 := Random_UniformArray3 (-3.0) 3.0 in
    ret (R4 (r3_0 force2on1) (r3_1 force2on1) (r3_2 force2on1) 0.0)
  else
    let* force_module := divide a distance_between_centers in
    let force2on1 :=
      R4 (force_module * comp1) (force_module * comp2)
         (force_module * comp3) 0.0 in
    ret force2on1.

Definition ForceOnACylinderFromASphere (cylinder sphere : Agent)
  : M World Real4 :=
  let ne := cylinder in
  let proximal_end := ProximalEnd ne in
  let distal_end := DistalEnd ne in
  let axis := GetSpringAxis ne in
  let actual_length := Norm axis in
  let d := GetDiameter ne in
  let c := GetPosition sphere in
  let r := 0.5 * GetDiameter sphere in
  if actual_length <? r then
    let rc := 0.5 * d in
    let* unit_axis := divide3 axis actual_length in
    let dvec := times3 unit_axis rc in
    let npd := minus3 distal_end dvec in
    ComputeForceOfASphereOnASphere npd rc c r
  else
    let proximal_end_closest := minus3 c proximal_end in
    let proximal_end_closest_axis :=
      Sum (EntryWiseProduct proximal_end_closest axis) in
    let* k := divide proximal_end_closest_axis
                (actual_length * actual_length) in
    let cc := plus3 proximal_end (times3 axis k) in
    let '(proportion_to_proximal_end, cc) :=
      if (k <=? 1.0) && (0.0 <=? k) then (1.0 - k, cc)
      else if k <? 0 then (1.0, proximal_end)
      else (0.0, distal_end) in
    let* half_d := divide d 2 in
    let penetration := half_d + r - GetL2Distance c cc in
    if penetration <=? 0 then
      ret (R4 0.0 0.0 0.0 0.0)
    else
      let* force := ComputeForceOfASphereOnASphere cc (d * 0.5) c r in
      ret (R4 (r4_0 force) (r4_1 force) (r4_2 force)
              proportion_to_proximal_end).

Definition ForceOnASphereFromACylinder (sphere cylinder : Agent)
  : M World Real3 :=
  let* temp := ForceOnACylinderFromASphere cylinder sphere in
  ret (R3 (- r4_0 temp) (- r4_1 temp) (- r4_2 temp)).

Definition ForceBetweenCylinders (cylinder1 cylinder2 : Agent)
  : M World Real4 :=
  let c1 := cylinder1 in
  let c2 := cylinder2 in
  let a := ProximalEnd c1 in
  let b := GetMassLocation c1 in
  let d1 := GetDiameter c1 in
  let c := ProximalEnd c2 in
  let d := GetMassLocation c2 in
  let d2 := GetDiameter c2 in
  let k := 0.5 in
  let p13x := r3_0 a - r3_0 c in
  let p13y := r3_1 a - r3_1 c in
  let p13z := r3_2 a - r3_2 c in
  let p43x := r3_0 d - r3_0 c in
  let p43y := r3_1 d - r3_1 c in
  let p43z := r3_2 d - r3_2 c in
  let p21x := r3_0 b - r3_0 a in
  let p21y := r3_1 b - r3_1 a in
  let p21z := r3_2 b - r3_2 a in
  let d1343 := p13x * p43x + p13y * p43y + p13z * p43z in
  let d4321 := p21x * p43x + p21y * p43y + p21z * p43z in
  let d1321 := p21x * p13x + p21y * p13y + p21z * p13z in
  let d4343 := p43x * p43x + p43y * p43y + p43z * p43z in
  let d2121 := p21x * p21x + p21y * p21y + p21z * p21z in
  let denom := d2121 * d4343 - d4321 * d4321 in
  let* (p1, p2, k) :=
    if 0.000000000001 <? denom then
      let numer := d1343 * d4321 - d1321 * d4343 in
      let* mua := divide numer denom in
      let* mub := divide (d1343 + mua * d4321) d4343 in
      let '(p1, k) :=
        if mua <? 0 then (a, 1)
        else if 1 <? mua then (b, 0)
        else (R3 (r3_0 a + mua * p21x) (r3_1 a + mua * p21y)
                 (r3_2 a + mua * p21z), 1 - mua) in
      let p2 :=
        if mub <? 0 then c
        else if 1 <? mub then d
        else R3 (r3_0 c + mub * p43x) (r3_1 c + mub * p43y)
                (r3_2 c + mub * p43z) in
      ret (p1, p2, k)
    else
      ret (plus3 a (times3 (minus3 b a) 0.5),
           plus3 c (times3 (minus3 d c) 0.5), k) in
  let* r1 := divide d1 2.0 in
  let* r2 := divide d2 2.0 in
  let* force1 := ComputeForceOfASphereOnASphere p1 r1 p2 r2 in
  let force := times4 force1 10 in
  ret (R4 (r4_0 force) (r4_1 force) (r4_2 force) k).

Definition Calculate (lhs rhs : Agent) : M World Real4 :=
  if Shape_eqb (GetShape lhs) kSphere && Shape_eqb (GetShape rhs) kSphere
  then
    let* result := ForceBetweenSpheres lhs rhs in
    ret (R4 (r3_0 result) (r3_1 result) (r3_2 result) 0)
  else if Shape_eqb (GetShape lhs) kSphere
          && Shape_eqb (GetShape rhs) kCylinder then
    let* result := ForceOnASphereFromACylinder lhs rhs in
    ret (R4 (r3_0 result) (r3_1 result) (r3_2 result) 0)
  else if Shape_eqb (GetShape lhs) kCylinder
          && Shape_eqb (GetShape rhs) kSphere then
    let* result := ForceOnACylinderFromASphere lhs rhs in
    ret result
  else if Shape_eqb (GetShape lhs) kCylinder
          && Shape_eqb (GetShape rhs) kCylinder then
    let* result := ForceBetweenCylinders lhs rhs in
    ret result
  else
    Log.Fatal (A := unit) "InteractionForce"
      "InteractionForce only supports sphere or cylinder shapes" ;;
    ret (R4 0 0 0 0).

(** *** Vocabulary of the statements *)

(** The distance between two centers, as both sphere-sphere forces compute
    it. *)
Definition center_distance (c1 c2 : Real3) : real_t :=
  let comp1 := r3_0 c1 - r3_0 c2 in
  let comp2 := r3_1 c1 - r3_1 c2 in
  let comp3 := r3_2 c1 - r3_2 c2 in
  sqrt (comp1 * comp1 + comp2 * comp2 + comp3 * comp3).

(** The virtual, bigger radius [ForceBetweenSpheres] gives a sphere. *)
Definition virtual_radius (sphere : Agent) : real_t :=
  0.5 * GetDiameter sphere + 10.0 * std_min 0.15 0.15.

Definition supported (s : Shape) : bool :=
  match s with
  | kSphere | kCylinder => true
  | kOtherShape _ => false
  end.

Definition in_kick_range (v : Real3) : Prop :=
  (-3.0 <= r3_0 v <= 3.0) ∧ (-3.0 <= r3_1 v <= 3.0)
  ∧ (-3.0 <= r3_2 v <= 3.0).

(** *** Facts *)

Lemma real_lt_true (x y : real_t) : (x <? y) = true ↔ x < y.
Proof.
  unfold real_lt. rewrite negb_true_iff, <- not_true_iff_false, Qle_bool_iff.
  split; [apply Qnot_le_lt | apply Qlt_not_le].
Qed.

Lemma real_lt_false (x y : real_t) : (x <? y) = false ↔ y <= x.
Proof.
  unfold real_lt. by rewrite negb_false_iff, Qle_bool_iff.
Qed.

Ltac run_sim :=
  unfold bind, ret, divide3, divide, Random_UniformArray3; simpl.

Lemma ComputeForceOfASphereOnASphere_returns c1 r1 c2 r2 w :
  ∃ v w', ComputeForceOfASphereOnASphere c1 r1 c2 r2 w = Ok v w'.
Proof.
  unfold ComputeForceOfASphereOnASphere. run_sim.
  repeat case_match; simplify_eq; eauto.
Qed.

Ltac sphere_returns :=
  match goal with
  | H : ComputeForceOfASphereOnASphere ?a ?b ?c ?d ?w = Aborted _ _ _ |- _ =>
      destruct (ComputeForceOfASphereOnASphere_returns a b c d w)
        as (? & ? & ?); congruence
  end.

Lemma ForceBetweenSpheres_returns lhs rhs w :
  ∃ v w', ForceBetweenSpheres lhs rhs w = Ok v w'.
Proof.
  unfold ForceBetweenSpheres. run_sim.
  repeat case_match; simplify_eq; eauto.
Qed.

Lemma ForceOnACylinderFromASphere_returns cylinder sphere w :
  ∃ v w', ForceOnACylinderFromASphere cylinder sphere w = Ok v w'.
Proof.
  unfold ForceOnACylinderFromASphere. run_sim.
  destruct (Norm (GetSpringAxis cylinder) <? _).
  - apply ComputeForceOfASphereOnASphere_returns.
  - repeat case_match; simplify_eq; eauto; sphere_returns.
Qed.

Lemma ForceOnASphereFromACylinder_returns sphere cylinder w :
  ∃ v w', ForceOnASphereFromACylinder sphere cylinder w = Ok v w'.
Proof.
  unfold ForceOnASphereFromACylinder, bind.
  destruct (ForceOnACylinderFromASphere_returns cylinder sphere w)
    as (v & w' & ->). unfold ret. eauto.
Qed.

Lemma ForceBetweenCylinders_returns cylinder1 cylinder2 w :
  ∃ v w', ForceBetweenCylinders cylinder1 cylinder2 w = Ok v w'.
Proof.
  unfold ForceBetweenCylinders. run_sim.
  repeat case_match; simplify_eq; eauto; sphere_returns.
Qed.

Lemma bind_ret_r {S A : Type} (m : M S A) (s : S) :
  bind m (λ a, ret a) s = m s.
Proof. unfold bind, ret. by destruct (m s). Qed.

(** C4: for the four pairs of sphere and cylinder [Calculate] is the one
    pairwise force of that pair (padded to four entries where the force has
    three) and returns a numeric result; for every other pair of shapes it
    ends in the fatal error and returns nothing. *)
Theorem Calculate_dispatch (lhs rhs : Agent) (w : World) :
  (GetShape lhs = kSphere → GetShape rhs = kSphere →
     Calculate lhs rhs w
     = (let* result := ForceBetweenSpheres lhs rhs in
        ret (R4 (r3_0 result) (r3_1 result) (r3_2 result) 0)) w)
  ∧ (GetShape lhs = kSphere → GetShape rhs = kCylinder →
     Calculate lhs rhs w
     = (let* result := ForceOnASphereFromACylinder lhs rhs in
        ret (R4 (r3_0 result) (r3_1 result) (r3_2 result) 0)) w)
  ∧ (GetShape lhs = kCylinder → GetShape rhs = kSphere →
     Calculate lhs rhs w = ForceOnACylinderFromASphere lhs rhs w)
  ∧ (GetShape lhs = kCylinder → GetShape rhs = kCylinder →
     Calculate lhs rhs w = ForceBetweenCylinders lhs rhs w)
  ∧ (supported (GetShape lhs) && supported (GetShape rhs) = true →
     ∃ v w', Calculate lhs rhs w = Ok v w')
  ∧ (supported (GetShape lhs) && supported (GetShape rhs) = false →
     Calculate lhs rhs w
     = Aborted "InteractionForce"
         "InteractionForce only supports sphere or cylinder shapes" w).
Proof.
  unfold Calculate.
  repeat split.
  - by intros -> ->.
  - by intros -> ->.
  - intros -> ->. simpl. apply bind_ret_r.
  - intros -> ->. simpl. apply bind_ret_r.
  - destruct (GetShape lhs), (GetShape rhs); simpl; try done; intros _.
    + unfold bind.
      destruct (ForceBetweenSpheres_returns lhs rhs w) as (v & w' & ->).
      unfold ret; eauto.
    + unfold bind.
      destruct (ForceOnASphereFromACylinder_returns lhs rhs w)
        as (v & w' & ->).
      unfold ret; eauto.
    + rewrite bind_ret_r. apply ForceOnACylinderFromASphere_returns.
    + rewrite bind_ret_r. apply ForceBetweenCylinders_returns.
  - destruct (GetShape lhs), (GetShape rhs); simpl; done.
Qed.

(** C8: when the spheres overlap and the distance of their centers is below
    0.00000001, both sphere-sphere forces return the three numbers drawn
    from the random number generator between -3 and 3 and divide nothing;
    whenever they divide by the distance of the centers, that distance is
    at least 0.00000001. *)
Theorem sphere_sphere_near_zero (lhs rhs : Agent) (c1 c2 : Real3)
    (r1 r2 : real_t) (w : World) :
  (¬ (virtual_radius lhs + virtual_radius rhs
        - center_distance (GetPosition lhs) (GetPosition rhs) < 0) →
   center_distance (GetPosition lhs) (GetPosition rhs) < 0.00000001 →
   ∃ kick g,
     UniformArray3 (-3.0) 3.0 (random w) = (kick, g)
     ∧ in_kick_range kick
     ∧ ForceBetweenSpheres lhs rhs w
       = Ok kick {| random := g; divisors := divisors w |})
  ∧ (¬ (r1 + r2 - center_distance c1 c2 < 0) →
     center_distance c1 c2 < 0.00000001 →
     ∃ kick g,
       UniformArray3 (-3.0) 3.0 (random w) = (kick, g)
       ∧ in_kick_range kick
       ∧ ComputeForceOfASphereOnASphere c1 r1 c2 r2 w
         = Ok (R4 (r3_0 kick) (r3_1 kick) (r3_2 kick) 0.0)
              {| random := g; divisors := divisors w |})
  ∧ (∀ v w', ForceBetweenSpheres lhs rhs w = Ok v w' →
       divisors w' = divisors w
       ∨ (divisors w'
          = divisors w ++ [virtual_radius lhs + virtual_radius rhs;
                           center_distance (GetPosition lhs) (GetPosition rhs)]
          ∧ 0.00000001
            <= center_distance (GetPosition lhs) (GetPosition rhs)))
  ∧ (∀ v w', ComputeForceOfASphereOnASphere c1 r1 c2 r2 w = Ok v w' →
       divisors w' = divisors w
       ∨ (divisors w' = divisors w ++ [center_distance c1 c2]
          ∧ 0.00000001 <= center_distance c1 c2)).
Proof.
  assert (Hrange : ∀ g, in_kick_range (fst (UniformArray3 (-3.0) 3.0 g))).
  { intros g. apply (UniformArray3_range (-3.0) 3.0 g). by vm_compute. }
  repeat split.
  - intros Hov Hnear.
    destruct (UniformArray3 (-3.0) 3.0 (random w)) as [kick g] eqn:E.
    exists kick, g. split; [done|]. split.
    { specialize (Hrange (random w)). by rewrite E in Hrange. }
    unfold ForceBetweenSpheres.
    change (0.5 * GetDiameter lhs + 10.0 * std_min 0.15 0.15)
      with (virtual_radius lhs).
    change (0.5 * GetDiameter rhs + 10.0 * std_min 0.15 0.15)
      with (virtual_radius rhs).
    fold (center_distance (GetPosition lhs) (GetPosition rhs)).
    apply Qnot_lt_le, real_lt_false in Hov. apply real_lt_true in Hnear.
    rewrite Hov, Hnear. run_sim. by rewrite E.
  - intros Hov Hnear.
    destruct (UniformArray3 (-3.0) 3.0 (random w)) as [kick g] eqn:E.
    exists kick, g. split; [done|]. split.
    { specialize (Hrange (random w)). by rewrite E in Hrange. }
    unfold ComputeForceOfASphereOnASphere.
    fold (center_distance c1 c2).
    apply Qnot_lt_le, real_lt_false in Hov. apply real_lt_true in Hnear.
    rewrite Hov, Hnear. run_sim. by rewrite E.
  - intros v w'. unfold ForceBetweenSpheres.
    change (0.5 * GetDiameter lhs + 10.0 * std_min 0.15 0.15)
      with (virtual_radius lhs).
    change (0.5 * GetDiameter rhs + 10.0 * std_min 0.15 0.15)
      with (virtual_radius rhs).
    fold (center_distance (GetPosition lhs) (GetPosition rhs)).
    destruct (_ <? 0) eqn:Hov; run_sim.
    { intros [= _ <-]. by left. }
    destruct (center_distance _ _ <? _) eqn:Hnear.
    { destruct (UniformArray3 _ _ _). intros [= _ <-]. by left. }
    intros [= _ <-]. right. simpl. rewrite <- app_assoc. split; [done|].
    by apply real_lt_false.
  - intros v w'. unfold ComputeForceOfASphereOnASphere.
    fold (center_distance c1 c2).
    destruct (_ <? 0) eqn:Hov; run_sim.
    { intros [= _ <-]. by left. }
    destruct (center_distance _ _ <? _) eqn:Hnear.
    { destruct (UniformArray3 _ _ _). intros [= _ <-]. by left. }
    intros [= _ <-]. right. simpl. split; [done|].
    by apply real_lt_false.
Qed.

(** C10: the force on a sphere from a cylinder is, entry by entry, the
    negation of the first three entries of the force on that cylinder from
    that sphere, computed in the same state. *)
Theorem ForceOnASphereFromACylinder_opposite (sphere cylinder : Agent)
    (w : World) :
  ∃ temp w',
    ForceOnACylinderFromASphere cylinder sphere w = Ok temp w'
    ∧ ForceOnASphereFromACylinder sphere cylinder w
      = Ok (R3 (- r4_0 temp) (- r4_1 temp) (- r4_2 temp)) w'.
Proof.
  destruct (ForceOnACylinderFromASphere_returns cylinder sphere w)
    as (temp & w' & E).
  exists temp, w'. split; [done|].
  unfold ForceOnASphereFromACylinder, bind. by rewrite E.
Qed.

(** *** Further facts about the pairwise forces *)

Lemma std_min_iof : 10.0 * std_min 0.15 0.15 == 1.5.
Proof. by vm_compute. Qed.

Lemma ComputeForceOfASphereOnASphere_fourth c1 r1 c2 r2 w v w' :
  ComputeForceOfASphereOnASphere c1 r1 c2 r2 w = Ok v w' → r4_3 v = 0.0.
Proof.
  unfold ComputeForceOfASphereOnASphere. run_sim.
  repeat case_match; intros; simplify_eq; done.
Qed.

Lemma ComputeForceOfASphereOnASphere_random c1 r1 c2 r2 w v w' :
  ComputeForceOfASphereOnASphere c1 r1 c2 r2 w = Ok v w' →
  random w' = random w
  ∨ random w' = snd (UniformArray3 (-3.0) 3.0 (random w)).
Proof.
  unfold ComputeForceOfASphereOnASphere. run_sim.
  destruct (_ <? 0); [intros [= _ <-]; by left|].
  destruct (_ <? _).
  - destruct (UniformArray3 _ _ _) eqn:E. intros [= _ <-]. by right.
  - intros [= _ <-]. by left.
Qed.

Lemma ForceOnACylinderFromASphere_fourth cylinder sphere w v w' :
  ForceOnACylinderFromASphere cylinder sphere w = Ok v w' →
  0 <= r4_3 v <= 1.
Proof.
  unfold ForceOnACylinderFromASphere. run_sim.
  destruct (Norm _ <? _).
  { intros H%ComputeForceOfASphereOnASphere_fourth. rewrite H.
    split; by vm_compute. }
  match goal with
  | |- context [(?x <=? 1.0) && (0.0 <=? ?x)] => set (k := x)
  end.
  destruct ((k <=? 1.0) && (0.0 <=? k)) eqn:Hk;
    [|destruct (k <? 0) eqn:Hk0]; simpl;
    (destruct (_ <=? 0); [intros [= <- _]; simpl; split; by vm_compute|]);
    (destruct (ComputeForceOfASphereOnASphere _ _ _ _ _); [|done]);
    intros [= <- _]; simpl.
  - apply andb_true_iff in Hk as [H1 H0].
    apply Qle_bool_iff in H1, H0. lra.
  - split; by vm_compute.
  - split; by vm_compute.
Qed.

Lemma ForceOnACylinderFromASphere_random cylinder sphere w v w' :
  ForceOnACylinderFromASphere cylinder sphere w = Ok v w' →
  random w' = random w
  ∨ random w' = snd (UniformArray3 (-3.0) 3.0 (random w)).
Proof.
  unfold ForceOnACylinderFromASphere. run_sim.
  destruct (Norm _ <? _).
  { intros H%ComputeForceOfASphereOnASphere_random. exact H. }
  destruct (_ && _); [|destruct (_ <? 0)]; simpl;
    (destruct (_ <=? 0); [intros [= _ <-]; by left|]);
    (destruct (ComputeForceOfASphereOnASphere _ _ _ _ _) eqn:E; [|done]);
    intros [= _ <-]; apply ComputeForceOfASphereOnASphere_random in E;
    exact E.
Qed.

Lemma ForceBetweenCylinders_fourth cylinder1 cylinder2 w v w' :
  ForceBetweenCylinders cylinder1 cylinder2 w = Ok v w' →
  0 <= r4_3 v <= 1.
Proof.
  unfold ForceBetweenCylinders. run_sim.
  destruct (0.000000000001 <? _).
  - match goal with
    | |- context [if ?x <? 0 then (_, 1) else _] => set (mua := x)
    end.
    destruct (mua <? 0) eqn:H0.
    + case_match; [|done]. intros [= <- _]. simpl. split; by vm_compute.
    + destruct (1 <? mua) eqn:H1.
      * case_match; [|done]. intros [= <- _]. simpl. split; by vm_compute.
      * case_match; [|done]. intros [= <- _]. simpl.
        apply real_lt_false in H0, H1. lra.
  - case_match; [|done]. intros [= <- _]. simpl. split; by vm_compute.
Qed.

Lemma ForceBetweenCylinders_random cylinder1 cylinder2 w v w' :
  ForceBetweenCylinders cylinder1 cylinder2 w = Ok v w' →
  random w' = random w
  ∨ random w' = snd (UniformArray3 (-3.0) 3.0 (random w)).
Proof.
  unfold ForceBetweenCylinders. run_sim.
  destruct (0.000000000001 <? _).
  - destruct (if _ <? 0 then _ else _) as [p1 k].
    destruct (ComputeForceOfASphereOnASphere _ _ _ _ _) eqn:E; [|done].
    intros [= _ <-]. apply ComputeForceOfASphereOnASphere_random in E.
    exact E.
  - destruct (ComputeForceOfASphereOnASphere _ _ _ _ _) eqn:E; [|done].
    intros [= _ <-]. apply ComputeForceOfASphereOnASphere_random in E.
    exact E.
Qed.

Lemma ForceBetweenSpheres_random lhs rhs w v w' :
  ForceBetweenSpheres lhs rhs w = Ok v w' →
  random w' = random w
  ∨ random w' = snd (UniformArray3 (-3.0) 3.0 (random w)).
Proof.
  unfold ForceBetweenSpheres. run_sim.
  destruct (_ <? 0); [intros [= _ <-]; by left|].
  destruct (_ <? _).
  - destruct (UniformArray3 _ _ _) eqn:E. intros [= _ <-]. by right.
  - intros [= _ <-]. by left.
Qed.

(** Spheres whose virtual radii do not reach each other exert no force:
    both sphere-sphere forces return zero and leave the state, random
    number generator included, as it was. *)
Theorem sphere_sphere_no_overlap (lhs rhs : Agent) (c1 c2 : Real3)
    (r1 r2 : real_t) (w : World) :
  virtual_radius lhs + virtual_radius rhs
    < center_distance (GetPosition lhs) (GetPosition rhs) →
  r1 + r2 < center_distance c1 c2 →
  ForceBetweenSpheres lhs rhs w = Ok (R3 0.0 0.0 0.0) w
  ∧ ComputeForceOfASphereOnASphere c1 r1 c2 r2 w = Ok (R4 0.0 0.0 0.0 0.0) w.
Proof.
  intros H1 H2. split.
  - unfold ForceBetweenSpheres.
    change (0.5 * GetDiameter lhs + 10.0 * std_min 0.15 0.15)
      with (virtual_radius lhs).
    change (0.5 * GetDiameter rhs + 10.0 * std_min 0.15 0.15)
      with (virtual_radius rhs).
    fold (center_distance (GetPosition lhs) (GetPosition rhs)).
    replace (_ <? 0) with true; [done|].
    symmetry. apply real_lt_true. lra.
  - unfold ComputeForceOfASphereOnASphere. fold (center_distance c1 c2).
    replace (_ <? 0) with true; [done|].
    symmetry. apply real_lt_true. lra.
Qed.

(** Overlapping spheres whose centers are at least 0.00000001 apart: the
    force on the first sphere is a non-negative multiple of the vector from
    the second center to the first (it pushes the spheres apart), its
    fourth entry is zero, and no random number is drawn. *)
Theorem ComputeForceOfASphereOnASphere_repulsive (c1 c2 : Real3)
    (r1 r2 : real_t) (w : World) :
  0.00000001 <= center_distance c1 c2 → center_distance c1 c2 <= r1 + r2 →
  ∃ s, 0 <= s
    ∧ ComputeForceOfASphereOnASphere c1 r1 c2 r2 w
      = Ok (R4 (s * (r3_0 c1 - r3_0 c2)) (s * (r3_1 c1 - r3_1 c2))
               (s * (r3_2 c1 - r3_2 c2)) 0.0)
           {| random := random w;
              divisors := divisors w ++ [center_distance c1 c2] |}.
Proof.
  intros Hfar Hov.
  exists ((r1 + r2 - center_distance c1 c2) / center_distance c1 c2). split.
  - apply Qle_shift_div_l; lra.
  - unfold ComputeForceOfASphereOnASphere. fold (center_distance c1 c2).
    replace (_ <? 0) with false by (symmetry; apply real_lt_false; lra).
    replace (_ <? _) with false by (symmetry; by apply real_lt_false).
    done.
Qed.

(** The share of the force that goes to the proximal end of the cylinder,
    the fourth entry of the force on a cylinder from a sphere, always lies
    between 0 and 1. *)
Theorem ForceOnACylinderFromASphere_proportion (cylinder sphere : Agent)
    (w : World) :
  ∃ v w', ForceOnACylinderFromASphere cylinder sphere w = Ok v w'
          ∧ 0 <= r4_3 v <= 1.
Proof.
  destruct (ForceOnACylinderFromASphere_returns cylinder sphere w)
    as (v & w' & E).
  exists v, w'. split; [done|].
  by apply (ForceOnACylinderFromASphere_fourth cylinder sphere w v w').
Qed.

(** The fourth entry of the force between two cylinders, the share of the
    proximal node, always lies between 0 and 1. *)
Theorem ForceBetweenCylinders_proportion (cylinder1 cylinder2 : Agent)
    (w : World) :
  ∃ v w', ForceBetweenCylinders cylinder1 cylinder2 w = Ok v w'
          ∧ 0 <= r4_3 v <= 1.
Proof.
  destruct (ForceBetweenCylinders_returns cylinder1 cylinder2 w)
    as (v & w' & E).
  exists v, w'. split; [done|].
  by apply (ForceBetweenCylinders_fourth cylinder1 cylinder2 w v w').
Qed.

(** Whenever [Calculate] returns a force, its fourth entry lies between 0
    and 1, and it is zero when the force acts on a sphere. *)
Theorem Calculate_fourth_entry (lhs rhs : Agent) (w : World) (v : Real4)
    (w' : World) :
  Calculate lhs rhs w = Ok v w' →
  0 <= r4_3 v <= 1 ∧ (GetShape lhs = kSphere → r4_3 v = 0).
Proof.
  unfold Calculate.
  destruct (GetShape lhs) eqn:El, (GetShape rhs) eqn:Er; simpl; try done.
  - unfold bind, ret. destruct (ForceBetweenSpheres lhs rhs w); [|done].
    intros [= <- _]. simpl. split; [split; by vm_compute | done].
  - unfold bind, ret.
    destruct (ForceOnASphereFromACylinder lhs rhs w); [|done].
    intros [= <- _]. simpl. split; [split; by vm_compute | done].
  - rewrite bind_ret_r. intros H%ForceOnACylinderFromASphere_fourth.
    split; [done | discriminate].
  - rewrite bind_ret_r. intros H%ForceBetweenCylinders_fourth.
    split; [done | discriminate].
Qed.

(** A force calculation draws from the random number generator at most
    once: it leaves the generator as it was or advances it by the one
    [UniformArray<3>(-3, 3)] of a pair of coinciding centers. *)
Theorem Calculate_random_at_most_once (lhs rhs : Agent) (w : World)
    (v : Real4) (w' : World) :
  Calculate lhs rhs w = Ok v w' →
  random w' = random w
  ∨ random w' = snd (UniformArray3 (-3.0) 3.0 (random w)).
Proof.
  unfold Calculate.
  destruct (GetShape lhs) eqn:El, (GetShape rhs) eqn:Er; simpl; try done.
  - unfold bind, ret. destruct (ForceBetweenSpheres lhs rhs w) eqn:E; [|done].
    intros [= _ <-]. by apply ForceBetweenSpheres_random in E.
  - unfold ForceOnASphereFromACylinder, bind, ret.
    destruct (ForceOnACylinderFromASphere rhs lhs w) eqn:E; [|done].
    intros [= _ <-]. by apply ForceOnACylinderFromASphere_random in E.
  - rewrite bind_ret_r. apply ForceOnACylinderFromASphere_random.
  - rewrite bind_ret_r. apply ForceBetweenCylinders_random.
Qed.

(** Through [Calculate], the force on a sphere from a cylinder is the
    opposite of the first three entries of the force on the cylinder from
    the sphere, computed in the same state, and its fourth entry is 0. *)
Theorem Calculate_sphere_cylinder_opposite (sphere cylinder : Agent)
    (w : World) :
  GetShape sphere = kSphere → GetShape cylinder = kCylinder →
  ∃ f w',
    Calculate cylinder sphere w = Ok f w'
    ∧ Calculate sphere cylinder w
      = Ok (R4 (- r4_0 f) (- r4_1 f) (- r4_2 f) 0) w'.
Proof.
  intros Hs Hc.
  destruct (ForceOnACylinderFromASphere_returns cylinder sphere w)
    as (f & w' & E).
  exists f, w'. unfold Calculate. rewrite Hs, Hc. simpl. split.
  - by rewrite bind_ret_r.
  - unfold ForceOnASphereFromACylinder, bind, ret. by rewrite E.
Qed.

(** With diameters that are not negative, [ForceBetweenSpheres] never
    divides by a number below 0.00000001, in particular never by zero. *)
Theorem ForceBetweenSpheres_divisors (lhs rhs : Agent) (w : World)
    (v : Real3) (w' : World) :
  0 <= GetDiameter lhs → 0 <= GetDiameter rhs →
  ForceBetweenSpheres lhs rhs w = Ok v w' →
  ∃ new, divisors w' = divisors w ++ new
         ∧ Forall (λ y, 0.00000001 <= y) new.
Proof.
  intros Hl Hr. unfold ForceBetweenSpheres. run_sim.
  pose proof std_min_iof as Hmin.
  destruct (_ <? 0).
  { intros [= _ <-]. exists []. by rewrite app_nil_r. }
  destruct (_ <? 0.00000001) eqn:Hnear.
  { destruct (UniformArray3 _ _ _). intros [= _ <-]. exists [].
    by rewrite app_nil_r. }
  intros [= _ <-]. simpl. eexists [_; _]. rewrite <- app_assoc.
  split; [done|]. apply real_lt_false in Hnear.
  repeat constructor; [lra | exact Hnear].
Qed.

End Force.

(** *** An executable instance of the externals

    Square roots are rounded down to eight decimals; the generator is a
    64-bit linear congruential one. *)

Definition sqrt_approx (q : real_t) : real_t :=
  Z.sqrt (Qnum q * Zpos (Qden q) * 10 ^ 16) # (Qden q * 10 ^ 8).

Definition Norm_approx (a : Real3) : real_t :=
  sqrt_approx (Sum (EntryWiseProduct a a)).

Definition GetL2Distance_approx (a b : Real3) : real_t :=
  Norm_approx (minus3 a b).

Definition lcg (g : N) : N :=
  ((g * 6364136223846793005 + 1442695040888963407) mod 2 ^ 64)%N.

Definition lcg_unit (g : N) : real_t :=
  Z.of_N (g mod 2 ^ 32) # 2 ^ 32.

Definition lcg_uniform (min max : real_t) (g : N) : real_t :=
  min + (max - min) * lcg_unit g.

Definition lcg_UniformArray3 (min max : real_t) (g : N) : Real3 * N :=
  let g1 := lcg g in
  let g2 := lcg g1 in
  let g3 := lcg g2 in
  (R3 (lcg_uniform min max g1) (lcg_uniform min max g2)
      (lcg_uniform min max g3), g3).

Lemma lcg_unit_range (g : N) : 0 <= lcg_unit g <= 1.
Proof.
  unfold lcg_unit, Qle; simpl.
  pose proof (N.mod_upper_bound g (2 ^ 32) ltac:(done)) as Hlt.
  change (2 ^ 32)%N with 4294967296%N in *.
  change (2 ^ 32)%positive with 4294967296%positive.
  generalize dependent (g mod 4294967296)%N. intros; lia.
Qed.

Lemma lcg_uniform_range (min max : real_t) (g : N) :
  min <= max → min <= lcg_uniform min max g <= max.
Proof.
  intros Hle. unfold lcg_uniform.
  pose proof (lcg_unit_range g) as [H0 H1].
  assert (0 <= (max - min) * lcg_unit g)
    by (apply Qmult_le_0_compat; lra).
  assert (0 <= (max - min) * (1 - lcg_unit g))
    by (apply Qmult_le_0_compat; lra).
  lra.
Qed.

Lemma lcg_UniformArray3_range (lo hi : real_t) (g : N) :
  lo <= hi →
  let v := fst (lcg_UniformArray3 lo hi g) in
  (lo <= r3_0 v <= hi) ∧ (lo <= r3_1 v <= hi) ∧ (lo <= r3_2 v <= hi).
Proof.
  intros Hle. simpl. repeat split; by apply lcg_uniform_range.
Defined.

Definition reference_externals : Externals :=
  {| sqrt := sqrt_approx;
     Norm := Norm_approx;
     GetL2Distance := GetL2Distance_approx;
     Random := N;
     UniformArray3 := lcg_UniformArray3;
     UniformArray3_range := lcg_UniformArray3_range |}.

(** Two concrete agents. *)
Definition origin : Real3 := R3 0 0 0.

Definition sphere_at (position : Real3) (diameter : real_t) : Agent :=
  {| GetShape := kSphere; GetPosition := position; GetDiameter := diameter;
     ProximalEnd := origin; DistalEnd := origin; GetSpringAxis := origin;
     GetMassLocation := origin |}.

Definition cylinder_from (proximal distal : Real3) (diameter : real_t)
  : Agent :=
  {| GetShape := kCylinder;
     GetPosition := plus3 proximal (times3 (minus3 distal proximal) 0.5);
     GetDiameter := diameter;
     ProximalEnd := proximal; DistalEnd := distal;
     GetSpringAxis := minus3 distal proximal;
     GetMassLocation := distal |}.

Definition fresh_world (seed : N) : World (Ext := reference_externals) :=
  @mkWorld reference_externals seed [].

(** Two spheres of diameter 10 with the same center: the kick is drawn and
    nothing is divided. *)
Lemma sphere_sphere_near_zero_witness :
  ∃ kick g,
    lcg_UniformArray3 (-3.0) 3.0 42%N = (kick, g)
    ∧ in_kick_range kick
    ∧ ForceBetweenSpheres (Ext := reference_externals)
        (sphere_at origin 10) (sphere_at origin 10) (fresh_world 42)
      = Ok kick (@mkWorld reference_externals g []).
Proof.
  apply (proj1 (sphere_sphere_near_zero (Ext := reference_externals)
                  (sphere_at origin 10) (sphere_at origin 10)
                  origin origin 5 5 (fresh_world 42))).
  - vm_compute. discriminate.
  - by vm_compute.
Defined.

(** Two spheres of diameter 10 at distance 6: the force divides by the sum
    of the virtual radii and by the distance. *)
Example ForceBetweenSpheres_at_distance_6 :
  match ForceBetweenSpheres (Ext := reference_externals)
          (sphere_at (R3 6 0 0) 10) (sphere_at origin 10) (fresh_world 42)
  with
  | Ok v w' =>
      (9.23 <? r3_0 v) && (r3_0 v <? 9.24)
      && Qeq_bool (r3_1 v) 0 && Qeq_bool (r3_2 v) 0
      && N.eqb (random w') 42
      && forallb (λ ok, ok)
           (zip_with Qeq_bool (divisors w') [13; 6])
  | Aborted _ _ _ => false
  end = true.
Proof. vm_compute. reflexivity. Qed.

(** The value and the state of a call that returned. *)
Definition returned {S A : Type} (o : Outcome S A) (default : A) : A :=
  match o with
  | Ok a _ => a
  | Aborted _ _ _ => default
  end.

Definition state_after {S A : Type} (o : Outcome S A) (default : S) : S :=
  match o with
  | Ok _ s => s
  | Aborted _ _ s => default
  end.

Definition is_Ok {S A : Type} (o : Outcome S A) : bool :=
  match o with
  | Ok _ _ => true
  | Aborted _ _ _ => false
  end.

Lemma Ok_returned {S A : Type} (o : Outcome S A) (d : A) (d' : S) :
  is_Ok o = true → o = Ok (returned o d) (state_after o d').
Proof. destruct o; simpl; [reflexivity | discriminate]. Qed.

Definition sphere_a : Agent := sphere_at (R3 6 0 0) 10.
Definition sphere_b : Agent := sphere_at origin 10.
Definition sphere_far : Agent := sphere_at (R3 100 0 0) 10.
Definition cylinder_z : Agent := cylinder_from origin (R3 0 0 20) 2.
Definition sphere_on_cylinder : Agent := sphere_at (R3 3 0 10) 10.

Lemma sphere_sphere_no_overlap_witness :
  ForceBetweenSpheres (Ext := reference_externals) sphere_far sphere_b
    (fresh_world 42) = Ok (R3 0.0 0.0 0.0) (fresh_world 42)
  ∧ ComputeForceOfASphereOnASphere (Ext := reference_externals)
      (R3 100 0 0) 5 origin 5 (fresh_world 42)
    = Ok (R4 0.0 0.0 0.0 0.0) (fresh_world 42).
Proof.
  apply (sphere_sphere_no_overlap (Ext := reference_externals));
    vm_compute; reflexivity.
Defined.

Lemma ComputeForceOfASphereOnASphere_repulsive_witness :
  ∃ s, 0 <= s
    ∧ ComputeForceOfASphereOnASphere (Ext := reference_externals)
        (R3 6 0 0) 5 origin 5 (fresh_world 42)
      = Ok (R4 (s * (6 - 0)) (s * (0 - 0)) (s * (0 - 0)) 0.0)
           (@mkWorld reference_externals 42%N
              ([] ++ [center_distance (Ext := reference_externals)
                        (R3 6 0 0) origin])).
Proof.
  apply (ComputeForceOfASphereOnASphere_repulsive (Ext := reference_externals)
           (R3 6 0 0) origin 5 5 (fresh_world 42));
    vm_compute; discriminate.
Defined.

Lemma Calculate_fourth_entry_witness :
  0 <= r4_3 (returned (Calculate (Ext := reference_externals) cylinder_z
                         sphere_on_cylinder (fresh_world 42))
               (R4 0 0 0 0)) <= 1
  ∧ (GetShape cylinder_z = kSphere →
     r4_3 (returned (Calculate (Ext := reference_externals) cylinder_z
                       sphere_on_cylinder (fresh_world 42))
             (R4 0 0 0 0)) = 0).
Proof.
  apply (Calculate_fourth_entry (Ext := reference_externals) cylinder_z
           sphere_on_cylinder (fresh_world 42)
           (returned (Calculate (Ext := reference_externals) cylinder_z
                        sphere_on_cylinder (fresh_world 42)) (R4 0 0 0 0))
           (state_after (Calculate (Ext := reference_externals) cylinder_z
                           sphere_on_cylinder (fresh_world 42))
              (fresh_world 42))).
  apply Ok_returned. vm_compute. reflexivity.
Defined.

Lemma Calculate_random_at_most_once_witness :
  random (state_after (Calculate (Ext := reference_externals) sphere_b
                         sphere_b (fresh_world 42)) (fresh_world 42))
  = random (fresh_world 42)
  ∨ random (state_after (Calculate (Ext := reference_externals) sphere_b
                           sphere_b (fresh_world 42)) (fresh_world 42))
    = snd (lcg_UniformArray3 (-3.0) 3.0 42%N).
Proof.
  apply (Calculate_random_at_most_once (Ext := reference_externals) sphere_b
           sphere_b (fresh_world 42)
           (returned (Calculate (Ext := reference_externals) sphere_b
                        sphere_b (fresh_world 42)) (R4 0 0 0 0))).
  apply Ok_returned. vm_compute. reflexivity.
Defined.

Lemma Calculate_sphere_cylinder_opposite_witness :
  ∃ f w',
    Calculate (Ext := reference_externals) cylinder_z sphere_on_cylinder
      (fresh_world 42) = Ok f w'
    ∧ Calculate (Ext := reference_externals) sphere_on_cylinder cylinder_z
        (fresh_world 42)
      = Ok (R4 (- r4_0 f) (- r4_1 f) (- r4_2 f) 0) w'.
Proof.
  apply (Calculate_sphere_cylinder_opposite (Ext := reference_externals)
           sphere_on_cylinder cylinder_z (fresh_world 42));
    reflexivity.
Defined.

Lemma ForceBetweenSpheres_divisors_witness :
  ∃ new,
    divisors (state_after (ForceBetweenSpheres (Ext := reference_externals)
                             sphere_a sphere_b (fresh_world 42))
                (fresh_world 42))
    = divisors (fresh_world 42) ++ new
    ∧ Forall (λ y, 0.00000001 <= y) new.
Proof.
  apply (ForceBetweenSpheres_divisors (Ext := reference_externals) sphere_a
           sphere_b (fresh_world 42)
           (returned (ForceBetweenSpheres (Ext := reference_externals)
                        sphere_a sphere_b (fresh_world 42)) origin)).
  - vm_compute. discriminate.
  - vm_compute. discriminate.
  - apply Ok_returned. vm_compute. reflexivity.
Defined.

(** A sphere that touches the middle of a cylinder: half of the force goes
    to either end, and the sphere feels the opposite force. *)
Example Calculate_cylinder_sphere_middle :
  match Calculate (Ext := reference_externals) cylinder_z sphere_on_cylinder
          (fresh_world 42),
        Calculate (Ext := reference_externals) sphere_on_cylinder cylinder_z
          (fresh_world 42)
  with
  | Ok f _, Ok g _ =>
      Qeq_bool (r4_3 f) 0.5 && Qeq_bool (r4_0 f) (-3)
      && Qeq_bool (r4_0 g) 3 && Qeq_bool (r4_3 g) 0
  | _, _ => false
  end = true.
Proof. vm_compute. reflexivity. Qed.

(** A shape that is neither a sphere nor a cylinder ends the run. *)
Example Calculate_other_shape :
  Calculate (Ext := reference_externals)
    (sphere_at origin 10)
    (mkAgent (kOtherShape 7) origin 1 origin origin origin origin)
    (fresh_world 42)
  = Aborted "InteractionForce"
      "InteractionForce only supports sphere or cylinder shapes"
      (fresh_world 42).
Proof. reflexivity. Qed.

End InteractionForce.

(** * [UniformGridEnvironment]: the uniform grid of boxes *)

Module UniformGridEnvironment.

Local Open Scope Z_scope.

(** What the grid reads of a sim object. *)
Record SimObject : Type := mkSimObject {
  GetUid : SoUid;
  GetPosition : Real3;
  GetDiameter : real_t
}.

(** [CellFactory] of the grid tests: [cells_per_dim]^3 cells of diameter 30
    on a lattice of spacing 20, numbered in creation order from [first]. *)
Definition CellFactory_cell (cells_per_dim : nat) (first : SoUid) (n : nat)
  : SimObject :=
  let space := 20%Q in
  let k := (n mod cells_per_dim)%nat in
  let j := ((n / cells_per_dim) mod cells_per_dim)%nat in
  let i := (n / (cells_per_dim * cells_per_dim))%nat in
  {| GetUid := (first + N.of_nat n)%N;
     GetPosition := R3 (inject_Z (Z.of_nat k) * space)
                       (inject_Z (Z.of_nat j) * space)
                       (inject_Z (Z.of_nat i) * space);
     GetDiameter := 30 |}.

Definition CellFactory (cells_per_dim : nat) : list SimObject :=
  List.map (CellFactory_cell cells_per_dim 0)
    (seq 0 (cells_per_dim * cells_per_dim * cells_per_dim)).

(** The geometry of a built grid: [grid_dimensions_] holds the lower and the
    upper bound of each axis, [num_boxes_axis_] the number of boxes per
    axis. *)
Record Axes : Type := mkAxes { ax_x : Z; ax_y : Z; ax_z : Z }.

Record Grid : Type := mkGrid {
  dim_min : Axes;
  dim_max : Axes;
  box_length_ : Z;
  num_boxes_axis_ : Axes;
  boxes_ : list (list SimObject)
}.

Definition grid_dimensions_ (g : Grid) : list Z :=
  [ax_x (dim_min g); ax_x (dim_max g); ax_y (dim_min g); ax_y (dim_max g);
   ax_z (dim_min g); ax_z (dim_max g)].

Definition GetDimensions (g : Grid) : list Z := grid_dimensions_ g.

Definition num_boxes_xy_ (g : Grid) : Z :=
  ax_x (num_boxes_axis_ g) * ax_y (num_boxes_axis_ g).

Definition total_num_boxes (g : Grid) : Z :=
  num_boxes_xy_ g * ax_z (num_boxes_axis_ g).

(** Modelled from the spec: uniform_grid_environment.h is not part of the
    sources.  A position is assigned to a box by integer-dividing its
    origin-shifted coordinate by the box length per axis, with floor
    semantics; a coordinate at or beyond the domain boundary maps into the
    clamped last box (and one below the domain into the first). *)
Definition clamp (lo hi v : Z) : Z := Z.max lo (Z.min hi v).

Definition axis_coordinate (origin length n : Z) (p : real_t) : Z :=
  clamp 0 (n - 1) (Qfloor ((p - inject_Z origin) / inject_Z length)).

Definition BoxCoordinatesOf (g : Grid) (position : Real3) : Axes :=
  {| ax_x := axis_coordinate (ax_x (dim_min g)) (box_length_ g)
               (ax_x (num_boxes_axis_ g)) (r3_0 position);
     ax_y := axis_coordinate (ax_y (dim_min g)) (box_length_ g)
               (ax_y (num_boxes_axis_ g)) (r3_1 position);
     ax_z := axis_coordinate (ax_z (dim_min g)) (box_length_ g)
               (ax_z (num_boxes_axis_ g)) (r3_2 position) |}.

(** Modelled from the spec: the flattening of a box coordinate into a linear
    box index, [idx = x + y*nx + z*nx*ny]. *)
Definition GetBoxIndexOfCoord (g : Grid) (box_coord : Axes) : Z :=
  ax_x box_coord + ax_y box_coord * ax_x (num_boxes_axis_ g)
  + ax_z box_coord * num_boxes_xy_ g.

Definition GetBoxIndex (g : Grid) (position : Real3) : Z :=
  GetBoxIndexOfCoord g (BoxCoordinatesOf g position).

(** Modelled from the spec: [GetBoxCoordinates] is the inverse of the
    flattening formula. *)
Definition GetBoxCoordinates (g : Grid) (box_idx : Z) : Axes :=
  let z := box_idx / num_boxes_xy_ g in
  let remainder := box_idx mod num_boxes_xy_ g in
  let y := remainder / ax_x (num_boxes_axis_ g) in
  let x := remainder mod ax_x (num_boxes_axis_ g) in
  {| ax_x := x; ax_y := y; ax_z := z |}.

(** The world position of a box coordinate: the lower corner of the box. *)
Definition worldPositionOf (g : Grid) (box_coord : Axes) : Real3 :=
  R3 (inject_Z (ax_x (dim_min g) + ax_x box_coord * box_length_ g))
     (inject_Z (ax_y (dim_min g) + ax_y box_coord * box_length_ g))
     (inject_Z (ax_z (dim_min g) + ax_z box_coord * box_length_ g)).

(** Modelled from the spec: [Update] recomputes the bounding box from all
    agent positions, derives the box length from the largest diameter and
    the number of boxes per axis as [ceil(extent / box_length)], at least
    one, and assigns every agent to one box.  As the [GridDimensions] test
    expects, the bounds are integers, the bounding box is extended by one
    box length on either side, and the upper bound is the lower one plus
    the boxes of the axis. *)
Definition Qmax_list (l : list real_t) : real_t :=
  foldr (λ a b, if b <? a then a else b)%Q (hd 0%Q l) l.

Definition Qmin_list (l : list real_t) : real_t :=
  foldr (λ a b, if a <? b then a else b)%Q (hd 0%Q l) l.

Definition largest_object_size (sos : list SimObject) : real_t :=
  foldr (λ so b, if b <? GetDiameter so then GetDiameter so else b)%Q 0%Q sos.

Definition axis_min (length : Z) (ps : list real_t) : Z :=
  Qfloor (Qmin_list ps) - length.

Definition axis_num_boxes (length : Z) (ps : list real_t) : Z :=
  let lo := axis_min length ps in
  let hi := Qceiling (Qmax_list ps) + length in
  Z.max 1 (Qceiling (inject_Z (hi - lo) / inject_Z length)).

Definition AssignBox (g : Grid) (so : SimObject) : Grid :=
  {| dim_min := dim_min g; dim_max := dim_max g;
     box_length_ := box_length_ g; num_boxes_axis_ := num_boxes_axis_ g;
     boxes_ := alter (λ box, box ++ [so])
                 (Z.to_nat (GetBoxIndex g (GetPosition so))) (boxes_ g) |}.

Definition Update (sos : list SimObject) : Grid :=
  let length := Qceiling (largest_object_size sos) in
  let xs := List.map (λ so, r3_0 (GetPosition so)) sos in
  let ys := List.map (λ so, r3_1 (GetPosition so)) sos in
  let zs := List.map (λ so, r3_2 (GetPosition so)) sos in
  let lo := mkAxes (axis_min length xs) (axis_min length ys)
              (axis_min length zs) in
  let n := mkAxes (axis_num_boxes length xs) (axis_num_boxes length ys)
             (axis_num_boxes length zs) in
  let hi := mkAxes (ax_x lo + ax_x n * length) (ax_y lo + ax_y n * length)
              (ax_z lo + ax_z n * length) in
  let empty :=
    {| dim_min := lo; dim_max := hi; box_length_ := length;
       num_boxes_axis_ := n;
       boxes_ := replicate (Z.to_nat (ax_x n * ax_y n * ax_z n)) [] |} in
  foldl AssignBox empty sos.

(** Modelled from the spec: the 3x3x3 neighborhood of a box, its own box and
    the adjacent ones that exist. *)
Definition in_grid (g : Grid) (c : Axes) : bool :=
  (0 <=? ax_x c) && (ax_x c <? ax_x (num_boxes_axis_ g))
  && (0 <=? ax_y c) && (ax_y c <? ax_y (num_boxes_axis_ g))
  && (0 <=? ax_z c) && (ax_z c <? ax_z (num_boxes_axis_ g)).

Definition moore_offsets : list Axes :=
  dz ← [-1; 0; 1]; dy ← [-1; 0; 1]; dx ← [-1; 0; 1]; [mkAxes dx dy dz].

Definition GetMooreBoxes (g : Grid) (box_idx : Z) : list Z :=
  let c := GetBoxCoordinates g box_idx in
  List.map (GetBoxIndexOfCoord g)
    (List.filter (in_grid g)
       (List.map (λ d, mkAxes (ax_x c + ax_x d) (ax_y c + ax_y d)
                         (ax_z c + ax_z d)) moore_offsets)).

Definition SquaredEuclideanDistance (a b : Real3) : real_t :=
  let dx := (r3_0 a - r3_0 b)%Q in
  let dy := (r3_1 a - r3_1 b)%Q in
  let dz := (r3_2 a - r3_2 b)%Q in
  (dx * dx + dy * dy + dz * dz)%Q.

(** The sim objects of the neighborhood of [query], in visiting order. *)
Definition NeighborCandidates (g : Grid) (query : SimObject)
  : list SimObject :=
  box_idx ← GetMooreBoxes g (GetBoxIndex g (GetPosition query));
  default [] (boxes_ g !! Z.to_nat box_idx).

(** Modelled from the spec: the sim objects [ForEachNeighborWithinRadius]
    calls the callback on: every other object of the neighborhood whose
    squared Euclidean distance is at most [squared_radius]. *)
Definition NeighborsWithinRadius (g : Grid) (query : SimObject)
    (squared_radius : real_t) : list SimObject :=
  List.filter
    (λ so, negb (N.eqb (GetUid so) (GetUid query))
           && (SquaredEuclideanDistance (GetPosition so) (GetPosition query)
               <=? squared_radius)%Q)
    (NeighborCandidates g query).

Definition ForEachNeighborWithinRadius {S : Type} (g : Grid)
    (lambda : SimObject → S → S) (query : SimObject)
    (squared_radius : real_t) (s : S) : S :=
  foldl (λ acc so, lambda so acc) s
    (NeighborsWithinRadius g query squared_radius).

(** The grid of the 3x3x3 lattice fixture of [GridTest.GetBoxIndex],
    [GridTest.GridDimensions] and [GridTest.GetBoxCoordinates]. *)
Definition lattice3_grid : Grid := Update (CellFactory 3).

(** *** Facts about box coordinates and indices *)

Lemma clamp_range (lo hi v : Z) : lo ≤ hi → lo ≤ clamp lo hi v ≤ hi.
Proof. unfold clamp. lia. Qed.

Lemma clamp_id (lo hi v : Z) : lo ≤ v ≤ hi → clamp lo hi v = v.
Proof. unfold clamp. lia. Qed.

Lemma Qfloor_unique (q : real_t) (k : Z) :
  (inject_Z k <= q)%Q → (q < inject_Z (k + 1))%Q → Qfloor q = k.
Proof.
  intros Hlo Hhi.
  pose proof (Qfloor_le q) as Hfl. pose proof (Qlt_floor q) as Hfu.
  assert (inject_Z k < inject_Z (Qfloor q + 1))%Q as H1
    by (eapply Qle_lt_trans; eauto).
  assert (inject_Z (Qfloor q) < inject_Z (k + 1))%Q as H2
    by (eapply Qle_lt_trans; eauto).
  rewrite <- Zlt_Qlt in H1, H2. lia.
Qed.

(** Floor semantics on one axis: a coordinate in the extent of box [k],
    lower bound included and upper bound excluded, is assigned to box [k]. *)
Lemma axis_coordinate_floor (origin length n k : Z) (p : real_t) :
  0 < length → 0 ≤ k < n →
  (inject_Z (origin + k * length) <= p)%Q →
  (p < inject_Z (origin + (k + 1) * length))%Q →
  axis_coordinate origin length n p = k.
Proof.
  intros HL Hk Hlo Hhi. unfold axis_coordinate.
  assert (0 < inject_Z length)%Q as HLq
    by (change 0%Q with (inject_Z 0); by rewrite <- Zlt_Qlt).
  rewrite (Qfloor_unique _ k); [apply clamp_id; lia| |].
  - apply Qle_shift_div_l; [done|].
    rewrite <- inject_Z_mult. rewrite inject_Z_plus in Hlo. lra.
  - apply Qlt_shift_div_r; [done|].
    rewrite <- inject_Z_mult. rewrite inject_Z_plus in Hhi. lra.
Qed.

Lemma axis_coordinate_range (origin length n : Z) (p : real_t) :
  1 ≤ n → 0 ≤ axis_coordinate origin length n p < n.
Proof.
  intros Hn. unfold axis_coordinate.
  pose proof (clamp_range 0 (n - 1)
                (Qfloor ((p - inject_Z origin) / inject_Z length))).
  lia.
Qed.

Lemma axis_coordinate_comp (origin length n : Z) (p q : real_t) :
  (p == q)%Q → axis_coordinate origin length n p = axis_coordinate origin length n q.
Proof.
  intros Heq. unfold axis_coordinate. f_equal. apply Qfloor_comp.
  by rewrite Heq.
Qed.

Lemma in_grid_spec (g : Grid) (c : Axes) :
  in_grid g c = true ↔
  0 ≤ ax_x c < ax_x (num_boxes_axis_ g)
  ∧ 0 ≤ ax_y c < ax_y (num_boxes_axis_ g)
  ∧ 0 ≤ ax_z c < ax_z (num_boxes_axis_ g).
Proof. unfold in_grid. rewrite !andb_true_iff. lia. Qed.

Lemma flatten_bounds (nx ny nz x y z : Z) :
  0 ≤ x < nx → 0 ≤ y < ny → 0 ≤ z < nz →
  0 ≤ x + y * nx + z * (nx * ny) < nx * ny * nz.
Proof.
  intros Hx Hy Hz.
  assert (0 ≤ y * nx ≤ (ny - 1) * nx) by nia.
  assert (0 ≤ nx * ny) by nia.
  assert (0 ≤ z * (nx * ny) ≤ (nz - 1) * (nx * ny)) by nia.
  lia.
Qed.

Lemma flatten_inverse (nx ny x y z : Z) :
  0 ≤ x < nx → 0 ≤ y < ny →
  let idx := x + y * nx + z * (nx * ny) in
  idx / (nx * ny) = z
  ∧ (idx mod (nx * ny)) / nx = y
  ∧ (idx mod (nx * ny)) mod nx = x.
Proof.
  intros Hx Hy idx. subst idx.
  assert (0 ≤ x + y * nx < nx * ny) as Hxy by nia.
  rewrite Z.div_add, Z.mod_add by lia.
  rewrite (Z.div_small (x + y * nx)), (Z.mod_small (x + y * nx)) by lia.
  rewrite Z.div_add, Z.mod_add by lia.
  rewrite Z.div_small, Z.mod_small by lia. lia.
Qed.

Lemma GetBoxCoordinates_GetBoxIndexOfCoord (g : Grid) (c : Axes) :
  in_grid g c = true → GetBoxCoordinates g (GetBoxIndexOfCoord g c) = c.
Proof.
  intros (Hx & Hy & Hz)%in_grid_spec.
  unfold GetBoxCoordinates, GetBoxIndexOfCoord, num_boxes_xy_.
  destruct (flatten_inverse (ax_x (num_boxes_axis_ g))
              (ax_y (num_boxes_axis_ g)) (ax_x c) (ax_y c) (ax_z c) Hx Hy)
    as (-> & -> & ->).
  by destruct c.
Qed.

Lemma BoxCoordinatesOf_in_grid (g : Grid) (position : Real3) :
  1 ≤ ax_x (num_boxes_axis_ g) → 1 ≤ ax_y (num_boxes_axis_ g) →
  1 ≤ ax_z (num_boxes_axis_ g) →
  in_grid g (BoxCoordinatesOf g position) = true.
Proof.
  intros Hx Hy Hz. apply in_grid_spec. unfold BoxCoordinatesOf; simpl.
  repeat split; by apply axis_coordinate_range.
Qed.

Lemma GetBoxIndexOfCoord_range (g : Grid) (c : Axes) :
  in_grid g c = true → 0 ≤ GetBoxIndexOfCoord g c < total_num_boxes g.
Proof.
  intros (Hx & Hy & Hz)%in_grid_spec.
  unfold GetBoxIndexOfCoord, total_num_boxes, num_boxes_xy_.
  by apply flatten_bounds.
Qed.

Lemma BoxCoordinatesOf_worldPositionOf (g : Grid) (c : Axes) :
  0 < box_length_ g → in_grid g c = true →
  BoxCoordinatesOf g (worldPositionOf g c) = c.
Proof.
  intros HL (Hx & Hy & Hz)%in_grid_spec.
  unfold BoxCoordinatesOf, worldPositionOf; simpl.
  rewrite (axis_coordinate_floor _ _ _ (ax_x c)),
    (axis_coordinate_floor _ _ _ (ax_y c)),
    (axis_coordinate_floor _ _ _ (ax_z c));
    try done; try apply Qle_refl; try (rewrite <- Zlt_Qlt; lia).
  by destruct c.
Qed.

(** C6: for a box coordinate within the grid bounds [GetBoxCoordinates]
    undoes the flattening [x + y*nx + z*nx*ny], and the box index of the
    world position of the coordinate leads back to the coordinate. *)
Theorem GetBoxCoordinates_round_trip (g : Grid) (c : Axes) :
  0 < box_length_ g → in_grid g c = true →
  GetBoxIndexOfCoord g c
  = ax_x c + ax_y c * ax_x (num_boxes_axis_ g)
    + ax_z c * ax_x (num_boxes_axis_ g) * ax_y (num_boxes_axis_ g)
  ∧ GetBoxCoordinates g (GetBoxIndexOfCoord g c) = c
  ∧ GetBoxCoordinates g (GetBoxIndex g (worldPositionOf g c)) = c.
Proof.
  intros HL Hin. split; [|split].
  - unfold GetBoxIndexOfCoord, num_boxes_xy_. lia.
  - by apply GetBoxCoordinates_GetBoxIndexOfCoord.
  - unfold GetBoxIndex. rewrite BoxCoordinatesOf_worldPositionOf by done.
    by apply GetBoxCoordinates_GetBoxIndexOfCoord.
Qed.

(** The coordinate (1, 2, 3) of the lattice fixture, whose index is 57. *)
Lemma GetBoxCoordinates_round_trip_witness :
  GetBoxIndexOfCoord lattice3_grid (mkAxes 1 2 3) = 1 + 2 * 4 + 3 * 4 * 4
  ∧ GetBoxCoordinates lattice3_grid
      (GetBoxIndexOfCoord lattice3_grid (mkAxes 1 2 3)) = mkAxes 1 2 3
  ∧ GetBoxCoordinates lattice3_grid
      (GetBoxIndex lattice3_grid
         (worldPositionOf lattice3_grid (mkAxes 1 2 3))) = mkAxes 1 2 3.
Proof.
  apply (GetBoxCoordinates_round_trip lattice3_grid (mkAxes 1 2 3));
    vm_compute; reflexivity.
Defined.

(** The extent of the box [c]: lower bounds included, upper bounds
    excluded. *)
Definition axis_extent (origin length k : Z) (p : real_t) : Prop :=
  (inject_Z (origin + k * length) <= p)%Q
  ∧ (p < inject_Z (origin + (k + 1) * length))%Q.

Definition in_box_extent (g : Grid) (c : Axes) (position : Real3) : Prop :=
  axis_extent (ax_x (dim_min g)) (box_length_ g) (ax_x c) (r3_0 position)
  ∧ axis_extent (ax_y (dim_min g)) (box_length_ g) (ax_y c) (r3_1 position)
  ∧ axis_extent (ax_z (dim_min g)) (box_length_ g) (ax_z c) (r3_2 position).

Definition Real3_eq (a b : Real3) : Prop :=
  (r3_0 a == r3_0 b)%Q ∧ (r3_1 a == r3_1 b)%Q ∧ (r3_2 a == r3_2 b)%Q.

Lemma BoxCoordinatesOf_in_extent (g : Grid) (c : Axes) (position : Real3) :
  0 < box_length_ g → in_grid g c = true → in_box_extent g c position →
  BoxCoordinatesOf g position = c.
Proof.
  intros HL (Hx & Hy & Hz)%in_grid_spec ([? ?] & [? ?] & [? ?]).
  unfold BoxCoordinatesOf.
  rewrite (axis_coordinate_floor _ _ _ (ax_x c)),
    (axis_coordinate_floor _ _ _ (ax_y c)),
    (axis_coordinate_floor _ _ _ (ax_z c)) by done.
  by destruct c.
Qed.

(** C5, as the code has it: the box index depends on the position as a
    number only; a position in the extent of a box, lower faces included,
    is assigned to that box, so a position exactly on the face between two
    boxes resolves to the box that begins there, the one with the higher
    coordinate; every position, also one outside of the domain, gets the
    index of a box of the grid; on the lattice fixture (0,0,0) and
    (1e-15,1e-15,1e-15) share box 21 and (-1e-15,1e-15,1e-15) is in box
    20, its neighbor with the next lower x coordinate. *)
Theorem GetBoxIndex_floor_semantics (g : Grid) :
  0 < box_length_ g →
  1 ≤ ax_x (num_boxes_axis_ g) → 1 ≤ ax_y (num_boxes_axis_ g) →
  1 ≤ ax_z (num_boxes_axis_ g) →
  (∀ p q, Real3_eq p q → GetBoxIndex g p = GetBoxIndex g q)
  ∧ (∀ c position, in_grid g c = true → in_box_extent g c position →
       GetBoxIndex g position = GetBoxIndexOfCoord g c)
  ∧ (∀ c, in_grid g c = true →
       GetBoxIndex g (worldPositionOf g c) = GetBoxIndexOfCoord g c)
  ∧ (∀ position,
       in_grid g (BoxCoordinatesOf g position) = true
       ∧ 0 ≤ GetBoxIndex g position < total_num_boxes g)
  ∧ GetBoxIndex lattice3_grid (R3 0 0 0) = 21
  ∧ GetBoxIndex lattice3_grid (R3 1e-15 1e-15 1e-15) = 21
  ∧ GetBoxIndex lattice3_grid (R3 (-1e-15) 1e-15 1e-15) = 20
  ∧ GetBoxCoordinates lattice3_grid 21 = mkAxes 1 1 1
  ∧ GetBoxCoordinates lattice3_grid 20 = mkAxes 0 1 1.
Proof.
  intros HL Hx Hy Hz.
  split; [|split; [|split; [|split;
    [|repeat split; vm_compute; reflexivity]]]].
  - intros p q (H0 & H1 & H2). unfold GetBoxIndex, BoxCoordinatesOf.
    by rewrite (axis_coordinate_comp _ _ _ _ _ H0),
      (axis_coordinate_comp _ _ _ _ _ H1),
      (axis_coordinate_comp _ _ _ _ _ H2).
  - intros c position Hin Hext. unfold GetBoxIndex.
    by rewrite (BoxCoordinatesOf_in_extent g c).
  - intros c Hin. unfold GetBoxIndex.
    by rewrite BoxCoordinatesOf_worldPositionOf.
  - intros position. split; [by apply BoxCoordinatesOf_in_grid|].
    apply GetBoxIndexOfCoord_range. by apply BoxCoordinatesOf_in_grid.
Qed.

Lemma GetBoxIndex_floor_semantics_witness :
  (∀ p q, Real3_eq p q → GetBoxIndex lattice3_grid p = GetBoxIndex lattice3_grid q)
  ∧ (∀ c position, in_grid lattice3_grid c = true →
       in_box_extent lattice3_grid c position →
       GetBoxIndex lattice3_grid position = GetBoxIndexOfCoord lattice3_grid c)
  ∧ (∀ c, in_grid lattice3_grid c = true →
       GetBoxIndex lattice3_grid (worldPositionOf lattice3_grid c)
       = GetBoxIndexOfCoord lattice3_grid c)
  ∧ (∀ position,
       in_grid lattice3_grid (BoxCoordinatesOf lattice3_grid position) = true
       ∧ 0 ≤ GetBoxIndex lattice3_grid position
           < total_num_boxes lattice3_grid)
  ∧ GetBoxIndex lattice3_grid (R3 0 0 0) = 21
  ∧ GetBoxIndex lattice3_grid (R3 1e-15 1e-15 1e-15) = 21
  ∧ GetBoxIndex lattice3_grid (R3 (-1e-15) 1e-15 1e-15) = 20
  ∧ GetBoxCoordinates lattice3_grid 21 = mkAxes 1 1 1
  ∧ GetBoxCoordinates lattice3_grid 20 = mkAxes 0 1 1.
Proof.
  apply (GetBoxIndex_floor_semantics lattice3_grid);
    vm_compute; [reflexivity | discriminate..].
Defined.

(** On the lattice fixture (0,0,0) lies exactly on the faces between the
    boxes with coordinate 0 and 1; it is assigned to box (1,1,1), index 21,
    and not to the box with the lower x coordinate, (0,1,1), index 20. *)
Lemma GetBoxIndex_boundary_not_lower_box :
  worldPositionOf lattice3_grid (mkAxes 1 1 1) = R3 0 0 0
  ∧ GetBoxIndexOfCoord lattice3_grid (mkAxes 0 1 1) = 20
  ∧ GetBoxIndex lattice3_grid (R3 0 0 0) = 21
  ∧ GetBoxIndex lattice3_grid (R3 0 0 0)
    ≠ GetBoxIndexOfCoord lattice3_grid (mkAxes 0 1 1).
Proof. repeat split; by vm_compute. Qed.

(** *** Facts about [Update] *)

(** The sim objects of [sos] whose box has index [i], in order. *)
Definition assigned_to (g : Grid) (i : nat) (sos : list SimObject)
  : list SimObject :=
  List.filter
    (λ so, Nat.eqb (Z.to_nat (GetBoxIndex g (GetPosition so))) i) sos.

Lemma foldl_AssignBox (sos : list SimObject) (g : Grid) :
  dim_min (foldl AssignBox g sos) = dim_min g
  ∧ box_length_ (foldl AssignBox g sos) = box_length_ g
  ∧ num_boxes_axis_ (foldl AssignBox g sos) = num_boxes_axis_ g
  ∧ ∀ i, boxes_ (foldl AssignBox g sos) !! i
         = (λ box, box ++ assigned_to g i sos) <$> boxes_ g !! i.
Proof.
  revert g; induction sos as [|so sos IH]; intros g; simpl.
  - repeat split. intros i.
    destruct (boxes_ g !! i); simpl; [by rewrite app_nil_r | done].
  - destruct (IH (AssignBox g so)) as (H1 & H2 & H3 & H4).
    repeat split; try done. intros i. rewrite H4.
    change (assigned_to (AssignBox g so) i sos) with (assigned_to g i sos).
    simpl. rewrite list_lookup_alter.
    destruct (decide (Z.to_nat (GetBoxIndex g (GetPosition so)) = i))
      as [->|Hne].
    + rewrite Nat.eqb_refl. destruct (boxes_ g !! _); simpl; [|done].
      by rewrite <- app_assoc.
    + apply Nat.eqb_neq in Hne. rewrite Hne. done.
Qed.

Lemma GetBoxIndex_geometry (g g' : Grid) (position : Real3) :
  dim_min g' = dim_min g → box_length_ g' = box_length_ g →
  num_boxes_axis_ g' = num_boxes_axis_ g →
  GetBoxIndex g' position = GetBoxIndex g position.
Proof.
  intros H1 H2 H3.
  unfold GetBoxIndex, GetBoxIndexOfCoord, BoxCoordinatesOf, num_boxes_xy_.
  by rewrite H1, H2, H3.
Qed.

Lemma largest_object_size_nonneg (sos : list SimObject) :
  (0 <= largest_object_size sos)%Q.
Proof.
  induction sos as [|so sos IH]; simpl; [apply Qle_refl|].
  destruct (_ <? _)%Q eqn:E; [|done].
  apply InteractionForce.real_lt_true in E. lra.
Qed.

(** What [Update] builds: at least one box per axis, a box length that is
    not negative, and in every box the sim objects assigned to it. *)
Lemma Update_spec (sos : list SimObject) :
  let g := Update sos in
  1 ≤ ax_x (num_boxes_axis_ g) ∧ 1 ≤ ax_y (num_boxes_axis_ g)
  ∧ 1 ≤ ax_z (num_boxes_axis_ g)
  ∧ 0 ≤ box_length_ g
  ∧ ∀ i, (i < Z.to_nat (total_num_boxes g))%nat →
         boxes_ g !! i = Some (assigned_to g i sos).
Proof.
  unfold Update.
  match goal with |- context [foldl AssignBox ?e sos] => set (empty := e) end.
  destruct (foldl_AssignBox sos empty) as (H1 & H2 & H3 & H4).
  simpl. rewrite H2, H3. simpl.
  split; [unfold axis_num_boxes; lia|].
  split; [unfold axis_num_boxes; lia|].
  split; [unfold axis_num_boxes; lia|].
  split.
  { pose proof (largest_object_size_nonneg sos) as Hn.
    apply Qceiling_resp_le in Hn. by vm_compute in Hn. }
  intros i Hi. rewrite H4. simpl.
  unfold total_num_boxes, num_boxes_xy_ in Hi. rewrite H3 in Hi. simpl in Hi.
  rewrite lookup_replicate_2 by done. simpl. f_equal.
  unfold assigned_to. apply filter_ext. intros so.
  by rewrite (GetBoxIndex_geometry empty (foldl AssignBox empty sos)).
Qed.

(** *** Neighbors within one box length sit in adjacent boxes *)

Lemma Qfloor_div_bounds (x : real_t) (length : Z) :
  0 < length →
  (inject_Z (Qfloor (x / inject_Z length)) * inject_Z length <= x)%Q
  ∧ (x < (inject_Z (Qfloor (x / inject_Z length)) + 1) * inject_Z length)%Q.
Proof.
  intros HL.
  assert (0 < inject_Z length)%Q as HLq
    by (change 0%Q with (inject_Z 0); by rewrite <- Zlt_Qlt).
  pose proof (Qfloor_le (x / inject_Z length)) as Hlo.
  pose proof (Qlt_floor (x / inject_Z length)) as Hhi.
  rewrite inject_Z_plus in Hhi.
  assert (x / inject_Z length * inject_Z length == x)%Q as Heq
    by (field; lra).
  split.
  - rewrite <- Heq at 2. apply Qmult_le_compat_r; lra.
  - rewrite <- Heq at 1. apply Qmult_lt_compat_r; [done|]. exact Hhi.
Qed.

Lemma Qfloor_div_adjacent (a b : real_t) (length : Z) :
  0 ≤ length → (a - b <= inject_Z length)%Q →
  Qfloor (a / inject_Z length) ≤ Qfloor (b / inject_Z length) + 1.
Proof.
  intros HL Hab.
  destruct (decide (length = 0)) as [->|Hne].
  - rewrite (Qfloor_comp (a / inject_Z 0) 0), (Qfloor_comp (b / inject_Z 0) 0);
      [done| |]; unfold Qdiv; change (/ inject_Z 0)%Q with 0%Q; ring.
  - assert (0 < length) as HL' by lia.
    assert (0 < inject_Z length)%Q as HLq
      by (change 0%Q with (inject_Z 0); by rewrite <- Zlt_Qlt).
    destruct (Qfloor_div_bounds a length HL') as [Ha _].
    destruct (Qfloor_div_bounds b length HL') as [_ Hb].
    set (fa := Qfloor (a / inject_Z length)) in *.
    set (fb := Qfloor (b / inject_Z length)) in *.
    assert (inject_Z fa * inject_Z length
            < (inject_Z fb + 2) * inject_Z length)%Q as Hlt by lra.
    assert (inject_Z fa < inject_Z (fb + 2))%Q as Hlt'.
    { rewrite inject_Z_plus. change (inject_Z 2) with 2%Q.
      apply Qnot_le_lt. intros Hge.
      apply (Qmult_le_compat_r _ _ (inject_Z length)) in Hge; lra. }
    rewrite <- Zlt_Qlt in Hlt'. lia.
Qed.

Lemma axis_coordinate_adjacent (origin length n : Z) (p q : real_t) :
  0 ≤ length →
  (- inject_Z length <= p - q)%Q → (p - q <= inject_Z length)%Q →
  -1 ≤ axis_coordinate origin length n p - axis_coordinate origin length n q
     ≤ 1.
Proof.
  intros HL Hlo Hhi. unfold axis_coordinate, clamp.
  pose proof (Qfloor_div_adjacent (p - inject_Z origin) (q - inject_Z origin)
                length HL ltac:(lra)).
  pose proof (Qfloor_div_adjacent (q - inject_Z origin) (p - inject_Z origin)
                length HL ltac:(lra)).
  lia.
Qed.

Lemma square_nonneg (d : real_t) : (0 <= d * d)%Q.
Proof.
  destruct (Qlt_le_dec d 0) as [Hneg|Hpos].
  - assert (0 <= (- d) * (- d))%Q by (apply Qmult_le_0_compat; lra). lra.
  - by apply Qmult_le_0_compat.
Qed.

Lemma square_le_bound (d r2 length : real_t) :
  (0 <= length)%Q → (d * d <= r2)%Q → (r2 <= length * length)%Q →
  (- length <= d)%Q ∧ (d <= length)%Q.
Proof.
  intros HL Hd Hr. split; apply Qnot_lt_le; intros Hlt.
  - assert (0 < (- d - length) * (- d + length))%Q
      by (apply Qmult_lt_0_compat; lra). lra.
  - assert (0 < (d - length) * (d + length))%Q
      by (apply Qmult_lt_0_compat; lra). lra.
Qed.

Definition adjacent (c c' : Axes) : Prop :=
  -1 ≤ ax_x c' - ax_x c ≤ 1 ∧ -1 ≤ ax_y c' - ax_y c ≤ 1
  ∧ -1 ≤ ax_z c' - ax_z c ≤ 1.

Lemma BoxCoordinatesOf_adjacent (g : Grid) (a b : Real3)
    (squared_radius : real_t) :
  0 ≤ box_length_ g →
  (SquaredEuclideanDistance a b <= squared_radius)%Q →
  (squared_radius <= inject_Z (box_length_ g) * inject_Z (box_length_ g))%Q →
  adjacent (BoxCoordinatesOf g b) (BoxCoordinatesOf g a).
Proof.
  intros HL Hd Hr. unfold SquaredEuclideanDistance in Hd.
  assert (0 <= inject_Z (box_length_ g))%Q as HLq
    by (change 0%Q with (inject_Z 0); by rewrite <- Zle_Qle).
  set (dx := (r3_0 a - r3_0 b)%Q) in *.
  set (dy := (r3_1 a - r3_1 b)%Q) in *.
  set (dz := (r3_2 a - r3_2 b)%Q) in *.
  pose proof (square_nonneg dx) as Hx. pose proof (square_nonneg dy) as Hy.
  pose proof (square_nonneg dz) as Hz.
  destruct (square_le_bound dx squared_radius _ HLq) as [? ?]; [lra|done|].
  destruct (square_le_bound dy squared_radius _ HLq) as [? ?]; [lra|done|].
  destruct (square_le_bound dz squared_radius _ HLq) as [? ?]; [lra|done|].
  unfold adjacent, BoxCoordinatesOf; simpl.
  repeat split; by apply axis_coordinate_adjacent.
Qed.

(** *** The 3x3x3 neighborhood *)

Lemma moore_offsets_spec (d : Axes) :
  d ∈ moore_offsets ↔
  -1 ≤ ax_x d ≤ 1 ∧ -1 ≤ ax_y d ≤ 1 ∧ -1 ≤ ax_z d ≤ 1.
Proof.
  rewrite list_elem_of_In. split.
  - vm_compute. intros H.
    repeat (destruct H as [<- | H]; [vm_compute; intuition discriminate|]).
    done.
  - destruct d as [x y z]; simpl. intros (Hx & Hy & Hz).
    assert (x = -1 ∨ x = 0 ∨ x = 1) as Hx' by lia.
    assert (y = -1 ∨ y = 0 ∨ y = 1) as Hy' by lia.
    assert (z = -1 ∨ z = 0 ∨ z = 1) as Hz' by lia.
    destruct Hx' as [-> | [-> | ->]], Hy' as [-> | [-> | ->]],
      Hz' as [-> | [-> | ->]]; vm_compute; tauto.
Qed.

Lemma GetBoxIndexOfCoord_inj (g : Grid) (c c' : Axes) :
  in_grid g c = true → in_grid g c' = true →
  GetBoxIndexOfCoord g c = GetBoxIndexOfCoord g c' → c = c'.
Proof.
  intros Hc Hc' Heq.
  rewrite <- (GetBoxCoordinates_GetBoxIndexOfCoord g c Hc),
    <- (GetBoxCoordinates_GetBoxIndexOfCoord g c' Hc').
  by rewrite Heq.
Qed.

Lemma GetMooreBoxes_spec (g : Grid) (c : Axes) (box_idx : Z) :
  in_grid g c = true →
  box_idx ∈ GetMooreBoxes g (GetBoxIndexOfCoord g c) ↔
  ∃ c', in_grid g c' = true ∧ adjacent c c'
        ∧ box_idx = GetBoxIndexOfCoord g c'.
Proof.
  intros Hc. unfold GetMooreBoxes.
  rewrite GetBoxCoordinates_GetBoxIndexOfCoord by done.
  rewrite list_elem_of_In, in_map_iff. split.
  - intros (c' & <- & Hin). apply filter_In in Hin as [Hin Hgrid].
    apply in_map_iff in Hin as (d & <- & Hd).
    apply list_elem_of_In, moore_offsets_spec in Hd.
    eexists. split; [exact Hgrid|]. split; [|done].
    unfold adjacent; simpl. lia.
  - intros (c' & Hgrid & Hadj & ->). exists c'. split; [done|].
    apply filter_In. split; [|done]. apply in_map_iff.
    exists (mkAxes (ax_x c' - ax_x c) (ax_y c' - ax_y c) (ax_z c' - ax_z c)).
    split.
    + destruct c'; simpl; f_equal; lia.
    + apply list_elem_of_In, moore_offsets_spec. exact Hadj.
Qed.

(** A grid in which every box holds the objects of [sos] assigned to it. *)
Definition built_over (g : Grid) (sos : list SimObject) : Prop :=
  1 ≤ ax_x (num_boxes_axis_ g) ∧ 1 ≤ ax_y (num_boxes_axis_ g)
  ∧ 1 ≤ ax_z (num_boxes_axis_ g)
  ∧ 0 ≤ box_length_ g
  ∧ ∀ i, (i < Z.to_nat (total_num_boxes g))%nat →
         boxes_ g !! i = Some (assigned_to g i sos).

Lemma NeighborCandidates_spec (g : Grid) (sos : list SimObject)
    (query so : SimObject) :
  built_over g sos →
  so ∈ NeighborCandidates g query ↔
  so ∈ sos
  ∧ adjacent (BoxCoordinatesOf g (GetPosition query))
      (BoxCoordinatesOf g (GetPosition so)).
Proof.
  intros (Hx & Hy & Hz & HL & Hboxes). unfold NeighborCandidates.
  rewrite list_elem_of_bind.
  pose proof (BoxCoordinatesOf_in_grid g (GetPosition query) Hx Hy Hz) as Hq.
  pose proof (BoxCoordinatesOf_in_grid g (GetPosition so) Hx Hy Hz) as Hso.
  split.
  - intros (box_idx & Hin & Hbox).
    apply (GetMooreBoxes_spec g _ _ Hq) in Hbox as (c' & Hc' & Hadj & ->).
    pose proof (GetBoxIndexOfCoord_range g c' Hc') as Hr.
    rewrite Hboxes in Hin by lia. simpl in Hin.
    apply list_elem_of_In, filter_In in Hin as [Hin Heq].
    split; [by apply list_elem_of_In|].
    apply Nat.eqb_eq in Heq.
    pose proof (GetBoxIndexOfCoord_range g _ Hso) as Hr'.
    fold (GetBoxIndex g (GetPosition so)) in Hr'.
    apply Z2Nat.inj in Heq; [|lia|lia].
    apply GetBoxIndexOfCoord_inj in Heq; [|done|done]. by rewrite Heq.
  - intros (Hin & Hadj).
    exists (GetBoxIndex g (GetPosition so)).
    pose proof (GetBoxIndexOfCoord_range g _ Hso) as Hr.
    fold (GetBoxIndex g (GetPosition so)) in Hr. split.
    + rewrite Hboxes by lia. simpl.
      apply list_elem_of_In, filter_In. split; [by apply list_elem_of_In|].
      apply Nat.eqb_refl.
    + apply (GetMooreBoxes_spec g _ _ Hq). eauto.
Qed.

Lemma NeighborsWithinRadius_spec (g : Grid) (query so : SimObject)
    (squared_radius : real_t) :
  so ∈ NeighborsWithinRadius g query squared_radius ↔
  so ∈ NeighborCandidates g query
  ∧ GetUid so ≠ GetUid query
  ∧ (SquaredEuclideanDistance (GetPosition so) (GetPosition query)
     <= squared_radius)%Q.
Proof.
  unfold NeighborsWithinRadius.
  rewrite list_elem_of_In, filter_In, <- list_elem_of_In.
  rewrite andb_true_iff, negb_true_iff, N.eqb_neq.
  unfold real_le. by rewrite Qle_bool_iff.
Qed.

Lemma NoDup_map_on {A B : Type} (f : A → B) (l : list A) :
  (∀ x y, In x l → In y l → f x = f y → x = y) →
  NoDup l → NoDup (List.map f l).
Proof.
  intros Hinj Hnd. induction Hnd as [|x l Hx Hnd IH]; simpl.
  - constructor.
  - constructor.
    + rewrite list_elem_of_In, in_map_iff. intros (y & Heq & Hy).
      apply Hinj in Heq; [|by right|by left]. subst y.
      by apply Hx, list_elem_of_In.
    + apply IH. intros a b Ha Hb. apply Hinj; by right.
Qed.

Lemma NoDup_List_filter {A : Type} (f : A → bool) (l : list A) :
  NoDup l → NoDup (List.filter f l).
Proof.
  intros Hnd. by apply NoDup_ListNoDup, List.NoDup_filter, NoDup_ListNoDup.
Qed.

Lemma moore_offsets_NoDup : NoDup moore_offsets.
Proof.
  assert (∀ l : list Axes,
            (fix nodup (l : list Axes) : bool :=
               match l with
               | [] => true
               | d :: l' =>
                   negb (existsb (λ e, (ax_x d =? ax_x e) && (ax_y d =? ax_y e)
                                       && (ax_z d =? ax_z e)) l')
                   && nodup l'
               end) l = true → NoDup l) as Hdec.
  { induction l as [|d l IH]; [constructor|].
    intros [Hd Hl]%andb_true_iff. constructor; [|by apply IH].
    intros Hin. apply negb_true_iff in Hd.
    assert (existsb (λ e, (ax_x d =? ax_x e) && (ax_y d =? ax_y e)
                          && (ax_z d =? ax_z e)) l = true); [|congruence].
    apply existsb_exists. exists d. split; [by apply list_elem_of_In|].
    by rewrite !Z.eqb_refl. }
  apply Hdec. by vm_compute.
Qed.

Lemma GetMooreBoxes_NoDup (g : Grid) (box_idx : Z) :
  NoDup (GetMooreBoxes g box_idx).
Proof.
  unfold GetMooreBoxes. apply NoDup_map_on.
  - intros c c' [_ Hc]%filter_In [_ Hc']%filter_In.
    by apply GetBoxIndexOfCoord_inj.
  - apply NoDup_List_filter, NoDup_map_on; [|apply moore_offsets_NoDup].
    intros [x y z] [x' y' z'] _ _ [= Hx Hy Hz]. f_equal; lia.
Qed.

Lemma NeighborCandidates_NoDup (g : Grid) (sos : list SimObject)
    (query : SimObject) :
  built_over g sos → NoDup sos → NoDup (NeighborCandidates g query).
Proof.
  intros (Hx & Hy & Hz & HL & Hboxes) Hnd. unfold NeighborCandidates.
  pose proof (BoxCoordinatesOf_in_grid g (GetPosition query) Hx Hy Hz) as Hq.
  assert (∀ b, b ∈ GetMooreBoxes g (GetBoxIndex g (GetPosition query)) →
               0 ≤ b
               ∧ boxes_ g !! Z.to_nat b = Some (assigned_to g (Z.to_nat b) sos))
    as Hbox.
  { intros b Hb.
    apply (GetMooreBoxes_spec g _ _ Hq) in Hb as (c' & Hc' & _ & ->).
    pose proof (GetBoxIndexOfCoord_range g c' Hc') as Hr.
    split; [lia|]. apply Hboxes. lia. }
  apply NoDup_bind; [| |apply GetMooreBoxes_NoDup].
  - intros b1 b2 so Hb1 Hb2 H1 H2.
    destruct (Hbox b1 Hb1) as [Hn1 E1], (Hbox b2 Hb2) as [Hn2 E2].
    rewrite E1 in H1. rewrite E2 in H2. simpl in H1, H2.
    apply list_elem_of_In, filter_In in H1 as [_ H1].
    apply list_elem_of_In, filter_In in H2 as [_ H2].
    apply Nat.eqb_eq in H1, H2. apply Z2Nat.inj; [done|done|congruence].
  - intros b Hb. destruct (Hbox b Hb) as [_ ->]. simpl.
    by apply NoDup_List_filter.
Qed.

(** Three cells of diameter 30 on the x axis, at 0, 29 and 61. *)
Definition three_on_a_line : list SimObject :=
  [mkSimObject 0 (R3 0 0 0) 30; mkSimObject 1 (R3 29 0 0) 30;
   mkSimObject 2 (R3 61 0 0) 30].

(** C1, as the code has it: on the grid built by [Update] over a
    collection, and for a squared radius that does not exceed the square of
    the box length, the callback is invoked exactly on the objects of the
    collection other than the query whose squared distance to the query is
    at most the squared radius, once each when the collection has no
    duplicates; so two objects of the collection within such a radius are in
    each other's visited set. *)
Theorem ForEachNeighborWithinRadius_exact (sos : list SimObject)
    (query : SimObject) (squared_radius : real_t) :
  (squared_radius
   <= inject_Z (box_length_ (Update sos))
      * inject_Z (box_length_ (Update sos)))%Q →
  (∀ so, so ∈ NeighborsWithinRadius (Update sos) query squared_radius ↔
         so ∈ sos ∧ GetUid so ≠ GetUid query
         ∧ (SquaredEuclideanDistance (GetPosition so) (GetPosition query)
            <= squared_radius)%Q)
  ∧ (NoDup sos →
     NoDup (NeighborsWithinRadius (Update sos) query squared_radius))
  ∧ (∀ (S : Type) (lambda : SimObject → S → S) (s : S),
       ForEachNeighborWithinRadius (Update sos) lambda query squared_radius s
       = foldl (λ acc so, lambda so acc) s
           (NeighborsWithinRadius (Update sos) query squared_radius))
  ∧ (∀ so, so ∈ sos → query ∈ sos → GetUid so ≠ GetUid query →
       (SquaredEuclideanDistance (GetPosition so) (GetPosition query)
        <= squared_radius)%Q →
       so ∈ NeighborsWithinRadius (Update sos) query squared_radius
       ∧ query ∈ NeighborsWithinRadius (Update sos) so squared_radius).
Proof.
  intros Hr.
  pose proof (Update_spec sos) as Hbuilt. simpl in Hbuilt.
  change (built_over (Update sos) sos) in Hbuilt.
  assert (0 ≤ box_length_ (Update sos)) as HL by apply Hbuilt.
  assert (Hiff : ∀ q so,
            so ∈ NeighborsWithinRadius (Update sos) q squared_radius ↔
            so ∈ sos ∧ GetUid so ≠ GetUid q
            ∧ (SquaredEuclideanDistance (GetPosition so) (GetPosition q)
               <= squared_radius)%Q).
  { intros q so.
    rewrite NeighborsWithinRadius_spec,
      (NeighborCandidates_spec _ sos) by done.
    split; [tauto|]. intros (Hin & Hne & Hd). repeat split; try done.
    all: by apply (BoxCoordinatesOf_adjacent _ _ _ squared_radius). }
  split; [apply Hiff|]. split; [|split; [done|]].
  - intros Hnd. unfold NeighborsWithinRadius.
    by apply NoDup_List_filter, (NeighborCandidates_NoDup _ sos).
  - intros so Hso Hq Hne Hd. split; apply Hiff; repeat split; try done.
    unfold SquaredEuclideanDistance in *.
    eapply Qle_trans; [|exact Hd]. apply Qle_lteq. right. ring.
Qed.

(** On the 4x4x4 lattice of [GridTest.SetupGrid], with the squared radius
    900 of the box length 30. *)
Lemma ForEachNeighborWithinRadius_exact_witness :
  (∀ so, so ∈ NeighborsWithinRadius (Update (CellFactory 4))
                (CellFactory_cell 4 0 42) 900 ↔
         so ∈ CellFactory 4 ∧ GetUid so ≠ 42%N
         ∧ (SquaredEuclideanDistance (GetPosition so) (R3 40 40 40)
            <= 900)%Q)
  ∧ List.map GetUid
      (NeighborsWithinRadius (Update (CellFactory 4))
         (CellFactory_cell 4 0 42) 900)
    = [22; 25; 26; 27; 30; 37; 38; 39; 41; 43; 45; 46; 47; 54; 57; 58;
       59; 62]%N.
Proof.
  split; [|vm_compute; reflexivity].
  apply (ForEachNeighborWithinRadius_exact (CellFactory 4)
           (CellFactory_cell 4 0 42) 900).
  vm_compute. discriminate.
Defined.

(** With the squared radius 1201 of the grid tests, the cell at 61 is within
    the radius of the cell at 29 (squared distance 1024), but it sits two
    boxes away and is not visited. *)
Lemma ForEachNeighborWithinRadius_misses_far_box :
  box_length_ (Update three_on_a_line) = 30
  ∧ List.map GetUid
      (NeighborsWithinRadius (Update three_on_a_line)
         (mkSimObject 1 (R3 29 0 0) 30) 1201) = [0%N]
  ∧ SquaredEuclideanDistance (R3 61 0 0) (R3 29 0 0) = 1024%Q
  ∧ Qle_bool 1024 1201 = true
  ∧ ax_x (BoxCoordinatesOf (Update three_on_a_line) (R3 29 0 0)) = 1
  ∧ ax_x (BoxCoordinatesOf (Update three_on_a_line) (R3 61 0 0)) = 3.
Proof. repeat split; vm_compute; reflexivity. Qed.

(** [std::sort] on a vector of uids. *)
Fixpoint sort_insert (u : SoUid) (l : list SoUid) : list SoUid :=
  match l with
  | [] => [u]
  | v :: l' => if (u <=? v)%N then u :: l else v :: sort_insert u l'
  end.

Definition std_sort (l : list SoUid) : list SoUid := foldr sort_insert [] l.

(** [GridTest.SetupGrid]: the sorted neighbors of cells 0, 4, 42 and 63
    within the squared radius 1201. *)
Definition SetupGrid_neighbors (uid : nat) : list SoUid :=
  std_sort
    (List.map GetUid
       (NeighborsWithinRadius (Update (CellFactory 4))
          (CellFactory_cell 4 0 uid) 1201)).

Example GridTest_SetupGrid :
  SetupGrid_neighbors 0 = [1; 4; 5; 16; 17; 20; 21]%N
  ∧ SetupGrid_neighbors 4 = [0; 1; 5; 8; 9; 16; 17; 20; 21; 24; 25]%N
  ∧ SetupGrid_neighbors 42
    = [21; 22; 23; 25; 26; 27; 29; 30; 31; 37; 38; 39; 41; 43; 45; 46; 47;
       53; 54; 55; 57; 58; 59; 61; 62; 63]%N
  ∧ SetupGrid_neighbors 63 = [42; 43; 46; 47; 58; 59; 62]%N.
Proof. repeat split; vm_compute; reflexivity. Qed.

(** [GridTest.GridDimensions] and [GridTest.GetBoxCoordinates]. *)
Example GridTest_GridDimensions :
  GetDimensions lattice3_grid = [-30; 90; -30; 90; -30; 90]
  ∧ GetDimensions
      (Update (mkSimObject 0 (R3 100 0 0) 30 :: tail (CellFactory 3)))
    = [-30; 150; -30; 90; -30; 90].
Proof. split; vm_compute; reflexivity. Qed.

Example GridTest_GetBoxCoordinates :
  GetBoxCoordinates lattice3_grid 3 = mkAxes 3 0 0
  ∧ GetBoxCoordinates lattice3_grid 9 = mkAxes 1 2 0
  ∧ GetBoxCoordinates lattice3_grid 57 = mkAxes 1 2 3.
Proof. repeat split; vm_compute; reflexivity. Qed.

End UniformGridEnvironment.

(** * [VtkDiffusionGrid]: slicing a diffusion grid into pieces along z *)

Module VtkDiffusionGrid.

Local Open Scope Z_scope.

(** [uint64_t] and [int] values with their wrap-around. *)
Definition uint64 (z : Z) : Z := z mod 2 ^ 64.
Definition int32 (z : Z) : Z := (z + 2 ^ 31) mod 2 ^ 32 - 2 ^ 31.

(** The loop of [Dissect]: every slot gets [min_slices], and one more while
    slices are left over. *)
Fixpoint Dissect_loop (piece_boxes_z_ : list Z) (min_slices leftover : Z)
  : list Z :=
  match piece_boxes_z_ with
  | [] => []
  | _ :: rest =>
      if 0 <? leftover
      then uint64 (min_slices + 1)
             :: Dissect_loop rest min_slices (uint64 (leftover - 1))
      else min_slices :: Dissect_loop rest min_slices leftover
  end.

(** [std::find] of the first zero followed by the [resize] to its index. *)
Fixpoint resize_to_first_zero (piece_boxes_z_ : list Z) : list Z :=
  match piece_boxes_z_ with
  | [] => []
  | x :: rest => if x =? 0 then [] else x :: resize_to_first_zero rest
  end.

(** [std::accumulate(first, last, 0)]: the accumulator is an [int]. *)
Definition accumulate (l : list Z) : Z :=
  foldl (λ acc x, int32 (uint64 (uint64 acc + x))) 0 l.

(** [Dissect] returns the new [piece_boxes_z_] and whether its assertion
    [sum == boxes_z] holds. *)
Definition Dissect (piece_boxes_z_ : list Z) (boxes_z num_pieces_target : Z)
  : list Z * bool :=
  let boxes_per_piece := (inject_Z boxes_z / inject_Z num_pieces_target)%Q in
  let min_slices := uint64 (Qfloor boxes_per_piece) in
  let leftover := boxes_z mod num_pieces_target in
  let pieces := Dissect_loop piece_boxes_z_ min_slices leftover in
  let pieces := resize_to_first_zero pieces in
  let sum := accumulate pieces in
  (pieces, uint64 sum =? boxes_z).

(** An extent: the lower and upper index of each axis. *)
Record Extent : Type := mkExtent {
  x_lo : Z; x_hi : Z; y_lo : Z; y_hi : Z; z_lo : Z; z_hi : Z
}.

(** [whole_extent_] as [Update] sets it. *)
Definition whole_extent (num_boxes : Z * Z * Z) : Extent :=
  let '(nx, ny, nz) := num_boxes in
  mkExtent 0 (Z.max (int32 (int32 nx - 1)) 0) 0
    (Z.max (int32 (int32 ny - 1)) 0) 0 (Z.max (int32 (int32 nz - 1)) 0).

(** The loop of [CalcPieceExtents] over the pieces between the first and
    the last, with the running z index [c]; it returns the extents and the
    z index at which the last piece starts. *)
Fixpoint CalcPieceExtents_loop (nx ny c : Z) (middle : list Z)
  : list Extent * Z :=
  match middle with
  | [] => ([], c)
  | p :: rest =>
      let e := mkExtent 0 (int32 (int32 nx - 1)) 0 (int32 (int32 ny - 1)) c
                 (int32 (c + int32 p)) in
      let '(es, c') :=
        CalcPieceExtents_loop nx ny (int32 (uint64 (uint64 c + p))) rest in
      (e :: es, c')
  end.

(** [CalcPieceExtents]: with one piece the whole extent; with none the code
    reads [piece_boxes_z_[0]] out of bounds, which is [None] here. *)
Definition CalcPieceExtents (piece_boxes_z_ : list Z) (whole_extent_ : Extent)
    (num_boxes : Z * Z * Z) : option (list Extent) :=
  let '(nx, ny, nz) := num_boxes in
  match piece_boxes_z_ with
  | [] => None
  | [_] => Some [whole_extent_]
  | first :: rest =>
      let c := int32 first in
      let e0 := mkExtent 0 (int32 (int32 nx - 1)) 0 (int32 (int32 ny - 1))
                  0 c in
      let '(es, c) :=
        CalcPieceExtents_loop nx ny c (removelast rest) in
      Some (e0 :: es
            ++ [mkExtent 0 (int32 (int32 nx - 1)) 0 (int32 (int32 ny - 1))
                  c (int32 (int32 nz - 1))])
  end.

Definition sum_list (l : list Z) : Z := foldr Z.add 0 l.

(** *** Facts about [Dissect] *)

Lemma sum_list_cons (x : Z) (l : list Z) :
  sum_list (x :: l) = x + sum_list l.
Proof. reflexivity. Qed.

Lemma uint64_small (z : Z) : 0 ≤ z < 2 ^ 64 → uint64 z = z.
Proof. intros H. unfold uint64. by apply Z.mod_small. Qed.

Lemma int32_small (z : Z) : - 2 ^ 31 ≤ z < 2 ^ 31 → int32 z = z.
Proof. intros H. unfold int32. rewrite Z.mod_small; lia. Qed.

Lemma accumulate_from (l : list Z) (acc : Z) :
  0 ≤ acc → Forall (λ x, 0 ≤ x) l → acc + sum_list l < 2 ^ 31 →
  foldl (λ a x, int32 (uint64 (uint64 a + x))) acc l = acc + sum_list l.
Proof.
  revert acc. induction l as [|x l IH]; intros acc Hacc Hl Hsum.
  - simpl. unfold sum_list; simpl. lia.
  - apply Forall_cons in Hl as [Hx Hl].
    assert (0 ≤ sum_list l) as Hnn.
    { clear -Hl. induction Hl as [|y l' Hy Hl' IHl]; [done|].
      change (sum_list (y :: l')) with (y + sum_list l'). lia. }
    change (sum_list (x :: l)) with (x + sum_list l) in *.
    simpl foldl.
    assert (2 ^ 31 < 2 ^ 64) by done.
    rewrite (uint64_small acc), (uint64_small (acc + x)), int32_small by lia.
    rewrite IH by (done || lia). lia.
Qed.

Lemma accumulate_sum (l : list Z) :
  Forall (λ x, 0 ≤ x) l → sum_list l < 2 ^ 31 → accumulate l = sum_list l.
Proof. intros Hl Hs. unfold accumulate. by rewrite accumulate_from. Qed.

(** After the loop and the resize: the slices handed out, their sizes, and
    the number of pieces. *)
Lemma Dissect_loop_shape (slots : list Z) (q r : Z) :
  0 ≤ q → q + 1 < 2 ^ 64 → 0 ≤ r < 2 ^ 64 →
  sum_list (resize_to_first_zero (Dissect_loop slots q r))
  = Z.of_nat (length slots) * q + Z.min (Z.of_nat (length slots)) r
  ∧ Forall (λ x, 1 ≤ x ∧ q ≤ x ≤ q + 1)
      (resize_to_first_zero (Dissect_loop slots q r))
  ∧ (length (resize_to_first_zero (Dissect_loop slots q r))
     ≤ length slots)%nat.
Proof.
  intros Hq Hq'. revert r.
  induction slots as [|slot slots IH]; intros r Hr;
    cbn [Dissect_loop resize_to_first_zero length].
  - split; [change (sum_list []) with 0; lia|].
    split; [constructor | done].
  - destruct (0 <? r) eqn:Hlt.
    + apply Z.ltb_lt in Hlt.
      rewrite (uint64_small (q + 1)), (uint64_small (r - 1)) by lia.
      destruct (IH (r - 1) ltac:(lia)) as (Hs & Hf & Hlen).
      cbn [resize_to_first_zero].
      replace (q + 1 =? 0) with false by (symmetry; apply Z.eqb_neq; lia).
      rewrite sum_list_cons, Hs. cbn [length].
      repeat split; [lia | | lia].
      constructor; [lia | done].
    + apply Z.ltb_ge in Hlt. assert (r = 0) as -> by lia.
      destruct (IH 0 ltac:(lia)) as (Hs & Hf & Hlen).
      cbn [resize_to_first_zero].
      destruct (q =? 0) eqn:Hq0.
      * apply Z.eqb_eq in Hq0. subst q.
        split; [change (sum_list []) with 0; lia|].
        split; [constructor | cbn [length]; lia].
      * apply Z.eqb_neq in Hq0. rewrite sum_list_cons, Hs. cbn [length].
        repeat split; [lia | | lia]. constructor; [lia | done].
Qed.

Lemma Forall_pieces_nonneg (q : Z) (l : list Z) :
  Forall (λ x, 1 ≤ x ∧ q ≤ x ≤ q + 1) l → Forall (λ x, 0 ≤ x) l.
Proof.
  intros H. eapply Forall_impl; [exact H|]. simpl. intros x Hx. lia.
Qed.

Lemma Dissect_unfold (slots : list Z) (boxes_z num_pieces_target : Z) :
  0 < num_pieces_target → 0 ≤ boxes_z < 2 ^ 63 →
  Dissect slots boxes_z num_pieces_target
  = let pieces :=
      resize_to_first_zero
        (Dissect_loop slots (boxes_z / num_pieces_target)
           (boxes_z mod num_pieces_target)) in
    (pieces, uint64 (accumulate pieces) =? boxes_z).
Proof.
  intros HT Hb. unfold Dissect. rewrite <- Zdiv_Qdiv.
  rewrite uint64_small; [done|].
  pose proof (Z.div_le_upper_bound boxes_z num_pieces_target boxes_z HT).
  pose proof (Z.div_pos boxes_z num_pieces_target). nia.
Qed.

(** When [piece_boxes_z_] has as many slots as pieces are asked for, the
    pieces of [Dissect] add up to [boxes_z]: its assertion holds. *)
Theorem Dissect_sum (slots : list Z) (boxes_z num_pieces_target : Z) :
  0 < num_pieces_target → 0 ≤ boxes_z < 2 ^ 31 →
  Z.of_nat (length slots) = num_pieces_target →
  snd (Dissect slots boxes_z num_pieces_target) = true
  ∧ sum_list (fst (Dissect slots boxes_z num_pieces_target)) = boxes_z.
Proof.
  intros HT Hb Hlen. rewrite Dissect_unfold by lia. simpl.
  pose proof (Z.div_mod boxes_z num_pieces_target ltac:(lia)) as Hdm.
  pose proof (Z.mod_pos_bound boxes_z num_pieces_target HT) as Hr.
  pose proof (Z.div_pos boxes_z num_pieces_target ltac:(lia) HT) as Hq.
  assert (boxes_z / num_pieces_target ≤ boxes_z) as Hq'
    by (apply Z.div_le_upper_bound; nia).
  destruct (Dissect_loop_shape slots (boxes_z / num_pieces_target)
              (boxes_z mod num_pieces_target)) as (Hs & Hf & _);
    [lia..|].
  assert (sum_list
            (resize_to_first_zero
               (Dissect_loop slots (boxes_z / num_pieces_target)
                  (boxes_z mod num_pieces_target))) = boxes_z) as Hsum.
  { rewrite Hs, Hlen. nia. }
  split; [|done].
  rewrite accumulate_sum; [|by eapply Forall_pieces_nonneg|lia].
  rewrite Hsum, uint64_small by lia. apply Z.eqb_refl.
Qed.


(** When [piece_boxes_z_] has fewer slots than pieces are asked for (it is
    sized once, and [Dissect] only ever shrinks it) and there are at least as
    many slices as pieces asked for, slices are lost: the pieces add up to
    less than [boxes_z] and the assertion fails. *)
Theorem Dissect_loses_slices (slots : list Z)
    (boxes_z num_pieces_target : Z) :
  Z.of_nat (length slots) < num_pieces_target →
  num_pieces_target ≤ boxes_z → boxes_z < 2 ^ 31 →
  snd (Dissect slots boxes_z num_pieces_target) = false
  ∧ sum_list (fst (Dissect slots boxes_z num_pieces_target)) < boxes_z.
Proof.
  intros Hlen HT Hb. rewrite Dissect_unfold by lia. simpl.
  assert (0 < num_pieces_target) as HT' by lia.
  pose proof (Z.div_mod boxes_z num_pieces_target ltac:(lia)) as Hdm.
  pose proof (Z.mod_pos_bound boxes_z num_pieces_target HT') as Hr.
  pose proof (Z.mod_le boxes_z num_pieces_target ltac:(lia) HT') as Hr'.
  assert (1 ≤ boxes_z / num_pieces_target) as Hq
    by (apply Z.div_le_lower_bound; lia).
  assert (boxes_z / num_pieces_target ≤ boxes_z) as Hq'
    by (apply Z.div_le_upper_bound; nia).
  destruct (Dissect_loop_shape slots (boxes_z / num_pieces_target)
              (boxes_z mod num_pieces_target)) as (Hs & Hf & _);
    [lia..|].
  assert (0 ≤ sum_list
            (resize_to_first_zero
               (Dissect_loop slots (boxes_z / num_pieces_target)
                  (boxes_z mod num_pieces_target))) < boxes_z) as Hsum.
  { rewrite Hs. nia. }
  split; [|lia].
  rewrite accumulate_sum; [|by eapply Forall_pieces_nonneg|lia].
  rewrite uint64_small by lia. apply Z.eqb_neq. lia.
Qed.

(** A [piece_boxes_z_] with four slots, as with four threads. *)
Definition four_slots : list Z := [0; 0; 0; 0].

Lemma Dissect_sum_witness :
  snd (Dissect four_slots 10 4) = true
  ∧ sum_list (fst (Dissect four_slots 10 4)) = 10.
Proof. apply (Dissect_sum four_slots 10 4); vm_compute; done. Defined.


Lemma Dissect_loses_slices_witness :
  snd (Dissect four_slots 16 8) = false
  ∧ sum_list (fst (Dissect four_slots 16 8)) < 16.
Proof. apply (Dissect_loses_slices four_slots 16 8); vm_compute; done. Defined.

Example Dissect_examples :
  Dissect [0; 0; 0; 0] 10 4 = ([3; 3; 2; 2], true)
  ∧ Dissect [0; 0; 0; 0] 3 4 = ([1; 1; 1], true)
  ∧ Dissect [0] 10 4 = ([3], false)
  ∧ Dissect [0; 0; 0; 0] 16 8 = ([2; 2; 2; 2], false).
Proof. repeat split; vm_compute; reflexivity. Qed.

(** *** Facts about [CalcPieceExtents] *)

Lemma sum_list_nonneg (l : list Z) :
  Forall (λ x, 0 ≤ x) l → 0 ≤ sum_list l.
Proof.
  induction 1 as [|y l' Hy Hl' IHl]; [done|]. rewrite sum_list_cons. lia.
Qed.

Lemma sum_list_app (l k : list Z) :
  sum_list (l ++ k) = sum_list l + sum_list k.
Proof.
  induction l as [|x l IH]; [done|].
  rewrite <- app_comm_cons, !sum_list_cons, IH. lia.
Qed.

Lemma sum_list_take_le (l : list Z) (i : nat) :
  Forall (λ x, 0 ≤ x) l → 0 ≤ sum_list (take i l) ≤ sum_list l.
Proof.
  intros Hl. rewrite <- (take_drop i l) at 3. rewrite sum_list_app.
  pose proof (sum_list_nonneg (take i l) (Forall_take _ _ _ Hl)).
  pose proof (sum_list_nonneg (drop i l) (Forall_drop _ _ _ Hl)). lia.
Qed.

Lemma CalcPieceExtents_loop_spec (nx ny : Z) (middle : list Z) (c : Z) :
  0 < nx < 2 ^ 31 → 0 < ny < 2 ^ 31 →
  0 ≤ c → Forall (λ x, 0 ≤ x) middle → c + sum_list middle < 2 ^ 31 →
  snd (CalcPieceExtents_loop nx ny c middle) = c + sum_list middle
  ∧ length (fst (CalcPieceExtents_loop nx ny c middle)) = length middle
  ∧ ∀ i e, fst (CalcPieceExtents_loop nx ny c middle) !! i = Some e →
      e = mkExtent 0 (nx - 1) 0 (ny - 1) (c + sum_list (take i middle))
            (c + sum_list (take (S i) middle)).
Proof.
  intros Hnx Hny. revert c.
  induction middle as [|p middle IH]; intros c Hc Hm Hsum.
  - simpl. split; [change (sum_list []) with 0; lia|]. split; [done|].
    intros i e Hi. by rewrite lookup_nil in Hi.
  - apply Forall_cons in Hm as [Hp Hm]. rewrite sum_list_cons in Hsum.
    pose proof (sum_list_nonneg middle Hm) as Hnn.
    assert (2 ^ 31 < 2 ^ 64) as Hpow by done.
    cbn [CalcPieceExtents_loop].
    rewrite (int32_small nx), (int32_small (nx - 1)), (int32_small ny),
      (int32_small (ny - 1)), (int32_small p), (int32_small (c + p)),
      (uint64_small c), (uint64_small (c + p)), (int32_small (c + p))
      by lia.
    specialize (IH (c + p) ltac:(lia) Hm ltac:(lia)).
    destruct (CalcPieceExtents_loop nx ny (c + p) middle) as [es c'].
    cbn [fst snd] in IH. destruct IH as (Hc' & Hlen & Hlook).
    cbn [fst snd length].
    rewrite sum_list_cons. split; [lia|]. split; [by rewrite Hlen|].
    intros [|i] e Hi; cbn [lookup list_lookup] in Hi.
    + injection Hi as <-. f_equal.
      * change (sum_list (take 0 (p :: middle))) with 0. lia.
      * change (take 1 (p :: middle)) with [p].
        change (sum_list [p]) with (p + 0). lia.
    + apply Hlook in Hi. rewrite Hi. cbn [take]. rewrite !sum_list_cons.
      f_equal; lia.
Qed.

(** With two or more pieces, [CalcPieceExtents] makes one extent per piece,
    each spanning the whole x and y range; along z, piece [i] begins at
    the number of slices of the pieces before it and ends where piece
    [i+1] begins, and the last piece ends at [num_boxes[2] - 1]. *)
Theorem CalcPieceExtents_contiguous (pieces : list Z) (whole_extent_ : Extent)
    (nx ny nz : Z) :
  (2 ≤ length pieces)%nat → Forall (λ x, 0 ≤ x) pieces →
  sum_list pieces < 2 ^ 31 →
  0 < nx < 2 ^ 31 → 0 < ny < 2 ^ 31 → 0 < nz < 2 ^ 31 →
  ∃ extents,
    CalcPieceExtents pieces whole_extent_ (nx, ny, nz) = Some extents
    ∧ length extents = length pieces
    ∧ ∀ i e, extents !! i = Some e →
        x_lo e = 0 ∧ x_hi e = nx - 1 ∧ y_lo e = 0 ∧ y_hi e = ny - 1
        ∧ z_lo e = sum_list (take i pieces)
        ∧ z_hi e = (if decide (S i = length pieces) then nz - 1
                    else sum_list (take (S i) pieces)).
Proof.
  intros Hlen Hnn Hsum Hnx Hny Hnz.
  destruct pieces as [|first rest]; [simpl in Hlen; lia|].
  destruct rest as [|second rest'] eqn:Hrest; [simpl in Hlen; lia|].
  rewrite <- Hrest in *.
  assert (rest ≠ []) as Hne by (by rewrite Hrest).
  destruct (exists_last Hne) as (middle & lst & Hsplit).
  apply Forall_cons in Hnn as [Hfirst Hnn].
  rewrite sum_list_cons in Hsum.
  assert (Forall (λ x, 0 ≤ x) middle ∧ 0 ≤ lst) as [Hmid Hlst].
  { rewrite Hsplit in Hnn. apply Forall_app in Hnn as [? Hl].
    split; [done|]. by inversion Hl. }
  assert (sum_list rest = sum_list middle + lst) as Hsr.
  { rewrite Hsplit, sum_list_app. change (sum_list [lst]) with (lst + 0).
    lia. }
  pose proof (sum_list_nonneg middle Hmid) as Hmnn.
  unfold CalcPieceExtents.
  replace (match rest with [] => _ | _ :: _ => _ end)
    with (let c := int32 first in
          let e0 := mkExtent 0 (int32 (int32 nx - 1)) 0
                      (int32 (int32 ny - 1)) 0 c in
          let '(es, c) :=
            CalcPieceExtents_loop nx ny c (removelast rest) in
          Some (e0 :: es
                ++ [mkExtent 0 (int32 (int32 nx - 1)) 0
                      (int32 (int32 ny - 1)) c (int32 (int32 nz - 1))]))
    by (by rewrite Hrest).
  cbn zeta.
  assert (removelast rest = middle) as ->
    by (rewrite Hsplit; apply removelast_last).
  rewrite (int32_small first), (int32_small nx), (int32_small (nx - 1)),
    (int32_small ny), (int32_small (ny - 1)), (int32_small nz),
    (int32_small (nz - 1)) by lia.
  destruct (CalcPieceExtents_loop_spec nx ny middle first)
    as (Hc & Hl & Hlook); [lia..|done|lia|].
  destruct (CalcPieceExtents_loop nx ny first middle) as [es c].
  simpl in Hc, Hl, Hlook. subst c.
  eexists. split; [reflexivity|].
  assert (length rest = S (length middle)) as Hlr
    by (rewrite Hsplit, length_app; simpl; lia).
  split.
  { simpl. rewrite length_app, Hl, Hlr. simpl. lia. }
  intros i e Hi.
  destruct i as [|i].
  - injection Hi as <-. simpl. repeat split.
    destruct (decide _) as [Heq|_]; [lia | lia].
  - simpl in Hi. cbn [take length]. rewrite !sum_list_cons.
    destruct (decide (i < length es)%nat) as [Hlt|Hge].
    + rewrite lookup_app_l in Hi by done. apply Hlook in Hi. subst e.
      cbn [x_lo x_hi y_lo y_hi z_lo z_hi].
      rewrite Hsplit at 1. rewrite take_app_le by lia.
      do 5 (split; [done|]).
      destruct (decide _) as [Heq|_]; [lia|].
      rewrite Hsplit. rewrite take_app_le by lia. done.
    + rewrite lookup_app_r in Hi by lia.
      destruct (i - length es)%nat as [|k] eqn:Hk; [|by destruct k].
      injection Hi as <-. assert (i = length middle) as -> by lia.
      cbn [x_lo x_hi y_lo y_hi z_lo z_hi].
      rewrite Hsplit at 1. rewrite take_app_length.
      do 5 (split; [done|]).
      destruct (decide _) as [_|Hneq]; [done | lia].
Qed.

Lemma CalcPieceExtents_contiguous_witness :
  ∃ extents,
    CalcPieceExtents [3; 3; 2; 2] (whole_extent (5, 6, 10)) (5, 6, 10)
    = Some extents
    ∧ length extents = 4%nat
    ∧ ∀ i e, extents !! i = Some e →
        x_lo e = 0 ∧ x_hi e = 5 - 1 ∧ y_lo e = 0 ∧ y_hi e = 6 - 1
        ∧ z_lo e = sum_list (take i [3; 3; 2; 2])
        ∧ z_hi e = (if decide (S i = 4%nat) then 10 - 1
                    else sum_list (take (S i) [3; 3; 2; 2])).
Proof.
  apply (CalcPieceExtents_contiguous [3; 3; 2; 2] (whole_extent (5, 6, 10))
           5 6 10); try (vm_compute; done).
  - simpl. lia.
  - repeat constructor; lia.
Defined.

Example CalcPieceExtents_examples :
  CalcPieceExtents [3; 3; 2; 2] (whole_extent (5, 6, 10)) (5, 6, 10)
  = Some [mkExtent 0 4 0 5 0 3; mkExtent 0 4 0 5 3 6; mkExtent 0 4 0 5 6 8;
          mkExtent 0 4 0 5 8 9]
  ∧ CalcPieceExtents [10] (whole_extent (5, 6, 10)) (5, 6, 10)
    = Some [mkExtent 0 4 0 5 0 9]
  ∧ CalcPieceExtents [] (whole_extent (5, 6, 0)) (5, 6, 0) = None.
Proof. repeat split; vm_compute; reflexivity. Qed.

End VtkDiffusionGrid.

(** * [Cell]: the spherical agent *)

Module Cell.

Import InteractionForce.

Local Open Scope Q_scope.
Local Open Scope sim_scope.

(** Constants and functions [Cell] uses whose code is not part of the
    sources: [Math::kPi], [std::cbrt], [std::cos], [std::sin], the axes of
    the local coordinate system, the scalar product [operator*] and
    [Normalize] of [MathArray], and [Agent::Initialize] of the base class. *)
Class CellExternals : Type := mkCellExternals {
  kPi : real_t;
  cbrt : real_t → real_t;
  cos : real_t → real_t;
  sin : real_t → real_t;
  kXAxis : Real3;
  kYAxis : Real3;
  kZAxis : Real3;
  scalar_product : Real3 → Real3 → real_t;
  Normalize : Real3 → Real3
}.

(** The data members of [Cell], and the three staticness flags of the base
    class [Agent] that [Cell] reads and writes: [IsStatic()],
    [SetPropagateStaticness()] and [SetStaticnessNextTimestep(bool)]. *)
Record Cell : Type := mkCell {
  position_ : Real3;
  tractor_force_ : Real3;
  diameter_ : real_t;
  volume_ : real_t;
  adherence_ : real_t;
  density_ : real_t;
  is_static_ : bool;
  propagate_staticness_ : bool;
  is_static_next_ts_ : bool
}.

Record Param : Type := mkParam {
  simulation_time_step : real_t;
  simulation_max_displacement : real_t
}.

Definition IsStatic (c : Cell) : bool := is_static_ c.

Definition SetPropagateStaticness (c : Cell) : Cell :=
  {| position_ := position_ c; tractor_force_ := tractor_force_ c;
     diameter_ := diameter_ c; volume_ := volume_ c;
     adherence_ := adherence_ c; density_ := density_ c;
     is_static_ := is_static_ c; propagate_staticness_ := true;
     is_static_next_ts_ := is_static_next_ts_ c |}.

Definition SetStaticnessNextTimestep (c : Cell) (value : bool) : Cell :=
  {| position_ := position_ c; tractor_force_ := tractor_force_ c;
     diameter_ := diameter_ c; volume_ := volume_ c;
     adherence_ := adherence_ c; density_ := density_ c;
     is_static_ := is_static_ c;
     propagate_staticness_ := propagate_staticness_ c;
     is_static_next_ts_ := value |}.

Definition GetAdherence (c : Cell) : real_t := adherence_ c.
Definition GetDiameter (c : Cell) : real_t := diameter_ c.
Definition GetDensity (c : Cell) : real_t := density_ c.
Definition GetPosition (c : Cell) : Real3 := position_ c.
Definition GetTractorForce (c : Cell) : Real3 := tractor_force_ c.
Definition GetVolume (c : Cell) : real_t := volume_ c.
Definition GetMass (c : Cell) : real_t := density_ c * volume_ c.
Definition GetShape (c : Cell) : Shape := kSphere.

Section Cell.

Context `{CExt : CellExternals}.

Definition with_diameter (c : Cell) (diameter : real_t) : Cell :=
  {| position_ := position_ c; tractor_force_ := tractor_force_ c;
     diameter_ := diameter; volume_ := volume_ c;
     adherence_ := adherence_ c; density_ := density_ c;
     is_static_ := is_static_ c;
     propagate_staticness_ := propagate_staticness_ c;
     is_static_next_ts_ := is_static_next_ts_ c |}.

Definition with_volume (c : Cell) (volume : real_t) : Cell :=
  {| position_ := position_ c; tractor_force_ := tractor_force_ c;
     diameter_ := diameter_ c; volume_ := volume;
     adherence_ := adherence_ c; density_ := density_ c;
     is_static_ := is_static_ c;
     propagate_staticness_ := propagate_staticness_ c;
     is_static_next_ts_ := is_static_next_ts_ c |}.

(** [UpdateDiameter]: V = (pi/6) * diameter^3. *)
Definition UpdateDiameter (c : Cell) : Cell :=
  let diameter := cbrt (volume_ c * 6 / kPi) in
  let c := if diameter_ c <? diameter then SetPropagateStaticness c else c in
  with_diameter c diameter.

(** [UpdateVolume]; [std::pow(diameter_, 3)] is the exact third power. *)
Definition UpdateVolume (c : Cell) : Cell :=
  with_volume c (kPi / 6 * (diameter_ c * diameter_ c * diameter_ c)).

Definition SetAdherence (c : Cell) (adherence : real_t) : Cell :=
  let c := if adherence <? adherence_ c
           then SetStaticnessNextTimestep c false else c in
  {| position_ := position_ c; tractor_force_ := tractor_force_ c;
     diameter_ := diameter_ c; volume_ := volume_ c;
     adherence_ := adherence; density_ := density_ c;
     is_static_ := is_static_ c;
     propagate_staticness_ := propagate_staticness_ c;
     is_static_next_ts_ := is_static_next_ts_ c |}.

Definition SetDiameter (c : Cell) (diameter : real_t) : Cell :=
  let c := if diameter_ c <? diameter then SetPropagateStaticness c else c in
  UpdateVolume (with_diameter c diameter).

Definition SetVolume (c : Cell) (volume : real_t) : Cell :=
  UpdateDiameter (with_volume c volume).

Definition SetDensity (c : Cell) (density : real_t) : Cell :=
  let c := if density_ c <? density then SetPropagateStaticness c else c in
  {| position_ := position_ c; tractor_force_ := tractor_force_ c;
     diameter_ := diameter_ c; volume_ := volume_ c;
     adherence_ := adherence_ c; density_ := density;
     is_static_ := is_static_ c;
     propagate_staticness_ := propagate_staticness_ c;
     is_static_next_ts_ := is_static_next_ts_ c |}.

Definition SetMass (c : Cell) (mass : real_t) : Cell :=
  SetDensity c (mass / volume_ c).

Definition SetPosition (c : Cell) (position : Real3) : Cell :=
  SetPropagateStaticness
    {| position_ := position; tractor_force_ := tractor_force_ c;
       diameter_ := diameter_ c; volume_ := volume_ c;
       adherence_ := adherence_ c; density_ := density_ c;
       is_static_ := is_static_ c;
       propagate_staticness_ := propagate_staticness_ c;
       is_static_next_ts_ := is_static_next_ts_ c |}.

Definition SetTractorForce (c : Cell) (tractor_force : Real3) : Cell :=
  {| position_ := position_ c; tractor_force_ := tractor_force;
     diameter_ := diameter_ c; volume_ := volume_ c;
     adherence_ := adherence_ c; density_ := density_ c;
     is_static_ := is_static_ c;
     propagate_staticness_ := propagate_staticness_ c;
     is_static_next_ts_ := is_static_next_ts_ c |}.

Definition UpdatePosition (c : Cell) (delta : Real3) : Cell :=
  SetPosition c (plus3 (position_ c) delta).

Definition MovePointMass (c : Cell) (normalized_dir : Real3) (speed : real_t)
  : Cell :=
  SetTractorForce c (plus3 (tractor_force_ c) (times3 normalized_dir speed)).

(** [ChangeVolume]: the volume never drops below 5.2359877E-7. *)
Definition ChangeVolume (param : Param) (c : Cell) (speed : real_t) : Cell :=
  let delta := speed * simulation_time_step param in
  let volume := volume_ c + delta in
  let volume := if volume <? 5.2359877E-7 then 5.2359877E-7 else volume in
  UpdateDiameter (with_volume c volume).

(** The event that creates a new agent.  For a [CellDivisionEvent],
    [existing_agent] is the mother cell. *)
Inductive NewAgentEvent : Type :=
| CellDivisionEvent (volume_ratio phi theta : real_t) (existing_agent : Cell)
| OtherNewAgentEvent.

(** [Initialize] is called on the new cell, the second daughter; for a cell
    division it also updates the mother.  It returns the new cell and, for
    a division, the mother.  [base_initialized] is the new cell after
    [Base::Initialize(event)]. *)
Definition Initialize (event : NewAgentEvent) (base_initialized : Cell)
  : Cell * option Cell :=
  match event with
  | CellDivisionEvent volume_ratio phi theta mother_cell =>
      let daughter := base_initialized in
      let radius := GetDiameter mother_cell * 0.5 in
      let x_coord := cos theta * sin phi in
      let y_coord := sin theta * sin phi in
      let z_coord := cos phi in
      let coords := R3 x_coord y_coord z_coord in
      let total_length_of_displacement := radius / 4.0 in
      let x_axis := kXAxis in
      let y_axis := kYAxis in
      let z_axis := kZAxis in
      let axis_of_division :=
        times3 (plus3 (plus3 (EntryWiseProduct coords x_axis)
                         (EntryWiseProduct coords y_axis))
                  (EntryWiseProduct coords z_axis))
          total_length_of_displacement in
      let d_2 := total_length_of_displacement / (volume_ratio + 1) in
      let d_1 := total_length_of_displacement - d_2 in
      let mother_volume := GetVolume mother_cell in
      let new_volume := mother_volume / (volume_ratio + 1) in
      let daughter := SetVolume daughter (mother_volume - new_volume) in
      let mother_pos := GetPosition mother_cell in
      let new_position := plus3 mother_pos (times3 axis_of_division d_2) in
      let daughter := SetPosition daughter new_position in
      let mother_pos := minus3 mother_pos (times3 axis_of_division d_1) in
      let mother_cell := SetPosition mother_cell mother_pos in
      let mother_cell := SetVolume mother_cell new_volume in
      let daughter := SetAdherence daughter (GetAdherence mother_cell) in
      let daughter := SetDensity daughter (GetDensity mother_cell) in
      (daughter, Some mother_cell)
  | OtherNewAgentEvent => (base_initialized, None)
  end.

(** The cell as the force sees it: a sphere with a position and a
    diameter. *)
Definition as_agent (c : Cell) : Agent :=
  sphere_at (GetPosition c) (GetDiameter c).

Context `{Ext : Externals}.

(** The functor [calculate_neighbor_forces] of [CalculateDisplacement], on
    the accumulated force and the number of non-zero neighbor forces. *)
Definition calculate_neighbor_forces (this : Cell) (neighbor : Agent)
    (acc : Real3 * Z) : M World (Real3 * Z) :=
  let '(translation_force_on_point_mass, non_zero_neighbor_forces) := acc in
  let* neighbor_force := Calculate (as_agent this) neighbor in
  if negb (Qeq_bool (r4_0 neighbor_force) 0)
     || negb (Qeq_bool (r4_1 neighbor_force) 0)
     || negb (Qeq_bool (r4_2 neighbor_force) 0)
  then ret (R3 (r3_0 translation_force_on_point_mass + r4_0 neighbor_force)
               (r3_1 translation_force_on_point_mass + r4_1 neighbor_force)
               (r3_2 translation_force_on_point_mass + r4_2 neighbor_force),
            (non_zero_neighbor_forces + 1)%Z)
  else ret acc.

(** [ctxt->ForEachNeighbor(functor, *this, squared_radius)]: the execution
    context is not part of the sources; [neighbors] are the agents it calls
    the functor on, in that order. *)
Fixpoint ForEachNeighbor (this : Cell) (neighbors : list Agent)
    (acc : Real3 * Z) : M World (Real3 * Z) :=
  match neighbors with
  | [] => ret acc
  | neighbor :: rest =>
      let* acc := calculate_neighbor_forces this neighbor acc in
      ForEachNeighbor this rest acc
  end.

(** [CalculateDisplacement] returns the movement and the cell with its
    staticness flag; the failing assertion on the mass ends the run. *)
Definition CalculateDisplacement (param : Param) (this : Cell)
    (neighbors : list Agent) (squared_radius dt : real_t)
  : M World (Real3 * Cell) :=
  let tf := GetTractorForce this in
  let h := dt in
  let movement_at_next_step := plus3 (R3 0 0 0) (times3 tf h) in
  let* (translation_force_on_point_mass, this) :=
    if negb (IsStatic this) then
      let* (force, non_zero_neighbor_forces) :=
        ForEachNeighbor this neighbors (R3 0 0 0, 0%Z) in
      let this :=
        if (1 <? non_zero_neighbor_forces)%Z
        then SetStaticnessNextTimestep this false else this in
      ret (force, this)
    else ret (R3 0 0 0, this) in
  let norm_of_force :=
    sqrt (scalar_product translation_force_on_point_mass
            translation_force_on_point_mass) in
  let physical_translation := GetAdherence this <? norm_of_force in
  if Qeq_bool (GetMass this) 0 then
    Log.Fatal "assert" "The mass of a cell was found to be zero!"
  else
    let* mh := divide h (GetMass this) in
    if physical_translation then
      let movement_at_next_step :=
        plus3 movement_at_next_step
          (times3 translation_force_on_point_mass mh) in
      if simulation_max_displacement param <? norm_of_force * mh then
        let movement_at_next_step := Normalize movement_at_next_step in
        ret (times3 movement_at_next_step (simulation_max_displacement param),
             this)
      else ret (movement_at_next_step, this)
    else ret (movement_at_next_step, this).

(** *** Facts about cell division and growth *)

Lemma volume_UpdateDiameter (c : Cell) :
  volume_ (UpdateDiameter c) = volume_ c.
Proof. unfold UpdateDiameter. by case_match. Qed.

Lemma diameter_UpdateDiameter (c : Cell) :
  diameter_ (UpdateDiameter c) = cbrt (volume_ c * 6 / kPi).
Proof. done. Qed.

Lemma SetVolume_fields (c : Cell) (volume : real_t) :
  volume_ (SetVolume c volume) = volume
  ∧ position_ (SetVolume c volume) = position_ c
  ∧ density_ (SetVolume c volume) = density_ c
  ∧ adherence_ (SetVolume c volume) = adherence_ c.
Proof. unfold SetVolume, UpdateDiameter. by case_match. Qed.

Lemma SetAdherence_fields (c : Cell) (adherence : real_t) :
  volume_ (SetAdherence c adherence) = volume_ c
  ∧ position_ (SetAdherence c adherence) = position_ c
  ∧ density_ (SetAdherence c adherence) = density_ c
  ∧ adherence_ (SetAdherence c adherence) = adherence.
Proof. unfold SetAdherence. by case_match. Qed.

Lemma SetDensity_fields (c : Cell) (density : real_t) :
  volume_ (SetDensity c density) = volume_ c
  ∧ position_ (SetDensity c density) = position_ c
  ∧ density_ (SetDensity c density) = density
  ∧ adherence_ (SetDensity c density) = adherence_ c.
Proof. unfold SetDensity. by case_match. Qed.

Lemma volume_SetVolume c v : GetVolume (SetVolume c v) = v.
Proof. apply SetVolume_fields. Qed.
Lemma position_SetVolume c v : GetPosition (SetVolume c v) = GetPosition c.
Proof. apply SetVolume_fields. Qed.
Lemma density_SetVolume c v : GetDensity (SetVolume c v) = GetDensity c.
Proof. apply SetVolume_fields. Qed.
Lemma adherence_SetVolume c v : GetAdherence (SetVolume c v) = GetAdherence c.
Proof. apply SetVolume_fields. Qed.
Lemma volume_SetPosition c p : GetVolume (SetPosition c p) = GetVolume c.
Proof. done. Qed.
Lemma position_SetPosition c p : GetPosition (SetPosition c p) = p.
Proof. done. Qed.
Lemma density_SetPosition c p : GetDensity (SetPosition c p) = GetDensity c.
Proof. done. Qed.
Lemma adherence_SetPosition c p :
  GetAdherence (SetPosition c p) = GetAdherence c.
Proof. done. Qed.
Lemma volume_SetAdherence c a : GetVolume (SetAdherence c a) = GetVolume c.
Proof. apply SetAdherence_fields. Qed.
Lemma position_SetAdherence c a :
  GetPosition (SetAdherence c a) = GetPosition c.
Proof. apply SetAdherence_fields. Qed.
Lemma density_SetAdherence c a : GetDensity (SetAdherence c a) = GetDensity c.
Proof. apply SetAdherence_fields. Qed.
Lemma adherence_SetAdherence c a : GetAdherence (SetAdherence c a) = a.
Proof. apply SetAdherence_fields. Qed.
Lemma volume_SetDensity c d : GetVolume (SetDensity c d) = GetVolume c.
Proof. apply SetDensity_fields. Qed.
Lemma position_SetDensity c d : GetPosition (SetDensity c d) = GetPosition c.
Proof. apply SetDensity_fields. Qed.
Lemma density_SetDensity c d : GetDensity (SetDensity c d) = d.
Proof. apply SetDensity_fields. Qed.
Lemma adherence_SetDensity c d :
  GetAdherence (SetDensity c d) = GetAdherence c.
Proof. apply SetDensity_fields. Qed.

Ltac cell_fields :=
  repeat progress rewrite ?volume_SetVolume, ?position_SetVolume, ?density_SetVolume,
    ?adherence_SetVolume, ?volume_SetPosition, ?position_SetPosition,
    ?density_SetPosition, ?adherence_SetPosition, ?volume_SetAdherence,
    ?position_SetAdherence, ?density_SetAdherence, ?adherence_SetAdherence,
    ?volume_SetDensity, ?position_SetDensity, ?density_SetDensity,
    ?adherence_SetDensity.

(** A cell division conserves volume, mass and the center of mass: the
    volumes of the two daughters add up to the volume of the mother, both
    have the density (and the new cell the adherence) of the mother, and
    their volume-weighted positions add up to the volume-weighted position
    of the mother. *)
Theorem Initialize_division_conserves (volume_ratio phi theta : real_t)
    (mother new_cell : Cell) :
  ¬ volume_ratio + 1 == 0 →
  ∃ daughter mother',
    Initialize (CellDivisionEvent volume_ratio phi theta mother) new_cell
    = (daughter, Some mother')
    ∧ GetVolume daughter + GetVolume mother' == GetVolume mother
    ∧ GetDensity daughter = GetDensity mother
    ∧ GetDensity mother' = GetDensity mother
    ∧ GetAdherence daughter = GetAdherence mother
    ∧ GetMass daughter + GetMass mother' == GetMass mother
    ∧ GetVolume daughter * r3_0 (GetPosition daughter)
      + GetVolume mother' * r3_0 (GetPosition mother')
      == GetVolume mother * r3_0 (GetPosition mother)
    ∧ GetVolume daughter * r3_1 (GetPosition daughter)
      + GetVolume mother' * r3_1 (GetPosition mother')
      == GetVolume mother * r3_1 (GetPosition mother)
    ∧ GetVolume daughter * r3_2 (GetPosition daughter)
      + GetVolume mother' * r3_2 (GetPosition mother')
      == GetVolume mother * r3_2 (GetPosition mother).
Proof.
  intros Hratio.
  set (total := GetDiameter mother * 0.5 / 4.0).
  set (axis :=
         times3 (plus3 (plus3 (EntryWiseProduct
                                 (R3 (cos theta * sin phi)
                                     (sin theta * sin phi) (cos phi)) kXAxis)
                          (EntryWiseProduct
                             (R3 (cos theta * sin phi)
                                 (sin theta * sin phi) (cos phi)) kYAxis))
                   (EntryWiseProduct
                      (R3 (cos theta * sin phi)
                          (sin theta * sin phi) (cos phi)) kZAxis))
           total).
  set (d_2 := total / (volume_ratio + 1)).
  set (new_volume := GetVolume mother / (volume_ratio + 1)).
  set (mother' :=
         SetVolume
           (SetPosition mother
              (minus3 (GetPosition mother) (times3 axis (total - d_2))))
           new_volume).
  exists (SetDensity
            (SetAdherence
               (SetPosition (SetVolume new_cell (GetVolume mother - new_volume))
                  (plus3 (GetPosition mother) (times3 axis d_2)))
               (GetAdherence mother'))
            (GetDensity mother')), mother'.
  split; [reflexivity|]. subst mother'. unfold GetMass.
  cell_fields.
  subst d_2 new_volume. clearbody axis total.
  unfold GetDensity, GetVolume, GetPosition.
  destruct (position_ mother) as [px py pz], axis as [ax ay az].
  cbn [plus3 minus3 times3 r3_0 r3_1 r3_2]. unfold Qdiv.
  split; [ring|]. do 3 (split; [reflexivity|]).
  repeat split; ring.
Qed.

(** [ChangeVolume] never leaves the volume below 5.2359877E-7: the volume
    grows by speed times time step, or is set to that minimum when it would
    fall below it; the diameter follows the new volume. *)
Theorem ChangeVolume_minimum (param : Param) (c : Cell) (speed : real_t) :
  5.2359877E-7 <= GetVolume (ChangeVolume param c speed)
  ∧ (5.2359877E-7 <= volume_ c + speed * simulation_time_step param →
     GetVolume (ChangeVolume param c speed)
     = volume_ c + speed * simulation_time_step param)
  ∧ (volume_ c + speed * simulation_time_step param < 5.2359877E-7 →
     GetVolume (ChangeVolume param c speed) = 5.2359877E-7)
  ∧ GetDiameter (ChangeVolume param c speed)
    = cbrt (GetVolume (ChangeVolume param c speed) * 6 / kPi).
Proof.
  unfold ChangeVolume, GetVolume, GetDiameter.
  rewrite volume_UpdateDiameter, diameter_UpdateDiameter.
  cbn [with_volume volume_].
  destruct (_ <? 5.2359877E-7) eqn:E.
  - apply real_lt_true in E.
    split; [apply Qle_refl|]. split; [|split; [done|reflexivity]].
    intros H. exfalso. eapply Qlt_not_le; eauto.
  - apply real_lt_false in E.
    split; [exact E|]. split; [done|]. split; [|reflexivity].
    intros H. exfalso. eapply Qlt_not_le; eauto.
Qed.

(** *** Facts about [CalculateDisplacement] *)

Lemma Calculate_sphere_supported (lhs rhs : Agent) (w : World) :
  InteractionForce.GetShape lhs = kSphere →
  supported (InteractionForce.GetShape rhs) = true →
  ∃ v w', Calculate lhs rhs w = Ok v w'.
Proof.
  intros Hl Hr. unfold Calculate. rewrite Hl.
  destruct (InteractionForce.GetShape rhs); simpl; try done.
  - unfold bind.
    destruct (ForceBetweenSpheres_returns lhs rhs w) as (v & w' & ->).
    unfold ret; eauto.
  - unfold bind.
    destruct (ForceOnASphereFromACylinder_returns lhs rhs w)
      as (v & w' & ->).
    unfold ret; eauto.
Qed.

Lemma Calculate_sphere_unsupported (lhs rhs : Agent) (w : World) :
  InteractionForce.GetShape lhs = kSphere →
  supported (InteractionForce.GetShape rhs) = false →
  Calculate lhs rhs w
  = Aborted "InteractionForce"
      "InteractionForce only supports sphere or cylinder shapes" w.
Proof.
  intros Hl Hr. unfold Calculate. rewrite Hl.
  by destruct (InteractionForce.GetShape rhs).
Qed.

Lemma ForEachNeighbor_unsupported (this : Cell) (neighbors : list Agent)
    (acc : Real3 * Z) (w : World) :
  Exists (λ neighbor, supported (InteractionForce.GetShape neighbor) = false)
    neighbors →
  ∃ w', ForEachNeighbor this neighbors acc w
        = Aborted "InteractionForce"
            "InteractionForce only supports sphere or cylinder shapes" w'.
Proof.
  intros Hex. revert acc w.
  induction neighbors as [|neighbor rest IH]; intros acc w.
  - by apply Exists_nil in Hex.
  - cbn [ForEachNeighbor]. unfold bind at 1.
    unfold calculate_neighbor_forces. destruct acc as [force count].
    unfold bind at 1.
    destruct (supported (InteractionForce.GetShape neighbor)) eqn:Hs.
    + apply Exists_cons in Hex as [Hbad|Hex]; [congruence|].
      destruct (Calculate_sphere_supported (as_agent this) neighbor w
                  eq_refl Hs) as (v & w1 & ->).
      destruct (_ || _); unfold ret; apply IH; done.
    + rewrite (Calculate_sphere_unsupported (as_agent this) neighbor w
                 eq_refl Hs). eauto.
Qed.

(** A static cell does not evaluate any neighbor force: whatever its
    neighbors are, also ones of a shape the force does not support, the
    call returns, the cell and the random number generator are unchanged,
    and the one division is the one by the mass. *)
Theorem CalculateDisplacement_static (param : Param) (this : Cell)
    (neighbors : list Agent) (squared_radius dt : real_t) (w : World) :
  IsStatic this = true → ¬ GetMass this == 0 →
  ∃ movement,
    CalculateDisplacement param this neighbors squared_radius dt w
    = Ok (movement, this)
         {| random := random w; divisors := divisors w ++ [GetMass this] |}.
Proof.
  intros Hstatic Hmass. unfold CalculateDisplacement.
  rewrite Hstatic. simpl. unfold bind at 1. unfold ret at 1.
  destruct (Qeq_bool (GetMass this) 0) eqn:E.
  { apply Qeq_bool_iff in E. done. }
  unfold bind, divide, ret. repeat case_match; eauto.
Qed.

(** A cell that is not static and has a neighbor of a shape other than
    sphere and cylinder cannot be displaced: the fatal error of the force
    ends the run. *)
Theorem CalculateDisplacement_unsupported (param : Param) (this : Cell)
    (neighbors : list Agent) (squared_radius dt : real_t) (w : World) :
  IsStatic this = false →
  Exists (λ neighbor, supported (InteractionForce.GetShape neighbor) = false)
    neighbors →
  ∃ w', CalculateDisplacement param this neighbors squared_radius dt w
        = Aborted "InteractionForce"
            "InteractionForce only supports sphere or cylinder shapes" w'.
Proof.
  intros Hstatic Hex. unfold CalculateDisplacement.
  rewrite Hstatic. simpl. unfold bind at 1. unfold bind at 1.
  destruct (ForEachNeighbor_unsupported this neighbors (R3 0 0 0, 0%Z) w Hex)
    as (w' & ->).
  eauto.
Qed.

End Cell.

(** *** Concrete cells *)

Definition unit_axes_externals : CellExternals :=
  {| kPi := 3.141592653589793;
     cbrt := λ x, x;
     cos := λ x, 1;
     sin := λ x, 0;
     kXAxis := R3 1 0 0;
     kYAxis := R3 0 1 0;
     kZAxis := R3 0 0 1;
     scalar_product := λ a b, Sum (EntryWiseProduct a b);
     Normalize := λ a, a |}.

Definition cell_at (position : Real3) (diameter volume : real_t)
    (static : bool) : Cell :=
  {| position_ := position; tractor_force_ := R3 1 0 0;
     diameter_ := diameter; volume_ := volume; adherence_ := 0.4;
     density_ := 1; is_static_ := static; propagate_staticness_ := false;
     is_static_next_ts_ := static |}.

Lemma Initialize_division_conserves_witness :
  ∃ daughter mother',
    Initialize (CExt := unit_axes_externals)
      (CellDivisionEvent 1 0 0 (cell_at origin 10 500 false))
      (cell_at origin 1 1 false)
    = (daughter, Some mother')
    ∧ GetVolume daughter + GetVolume mother'
      == GetVolume (cell_at origin 10 500 false)
    ∧ GetDensity daughter = GetDensity (cell_at origin 10 500 false)
    ∧ GetDensity mother' = GetDensity (cell_at origin 10 500 false)
    ∧ GetAdherence daughter = GetAdherence (cell_at origin 10 500 false)
    ∧ GetMass daughter + GetMass mother'
      == GetMass (cell_at origin 10 500 false)
    ∧ GetVolume daughter * r3_0 (GetPosition daughter)
      + GetVolume mother' * r3_0 (GetPosition mother')
      == GetVolume (cell_at origin 10 500 false)
         * r3_0 (GetPosition (cell_at origin 10 500 false))
    ∧ GetVolume daughter * r3_1 (GetPosition daughter)
      + GetVolume mother' * r3_1 (GetPosition mother')
      == GetVolume (cell_at origin 10 500 false)
         * r3_1 (GetPosition (cell_at origin 10 500 false))
    ∧ GetVolume daughter * r3_2 (GetPosition daughter)
      + GetVolume mother' * r3_2 (GetPosition mother')
      == GetVolume (cell_at origin 10 500 false)
         * r3_2 (GetPosition (cell_at origin 10 500 false)).
Proof.
  apply (Initialize_division_conserves (CExt := unit_axes_externals)
           1 0 0 (cell_at origin 10 500 false) (cell_at origin 1 1 false)).
  vm_compute. discriminate.
Defined.

Definition other_shape : Agent :=
  mkAgent (kOtherShape 7) origin 1 origin origin origin origin.

Lemma CalculateDisplacement_static_witness :
  ∃ movement,
    CalculateDisplacement (CExt := unit_axes_externals)
      (Ext := reference_externals) (mkParam 1 3)
      (cell_at origin 10 500 true) [other_shape] 900 1 (fresh_world 42)
    = Ok (movement, cell_at origin 10 500 true)
         (@mkWorld reference_externals 42%N
            ([] ++ [GetMass (cell_at origin 10 500 true)])).
Proof.
  apply (CalculateDisplacement_static (CExt := unit_axes_externals)
           (Ext := reference_externals) (mkParam 1 3)
           (cell_at origin 10 500 true) [other_shape] 900 1 (fresh_world 42)).
  - reflexivity.
  - vm_compute. discriminate.
Defined.

Lemma CalculateDisplacement_unsupported_witness :
  ∃ w',
    CalculateDisplacement (CExt := unit_axes_externals)
      (Ext := reference_externals) (mkParam 1 3)
      (cell_at origin 10 500 false) [sphere_b; other_shape] 900 1
      (fresh_world 42)
    = Aborted "InteractionForce"
        "InteractionForce only supports sphere or cylinder shapes" w'.
Proof.
  apply (CalculateDisplacement_unsupported (CExt := unit_axes_externals)
           (Ext := reference_externals) (mkParam 1 3)
           (cell_at origin 10 500 false) [sphere_b; other_shape] 900 1
           (fresh_world 42)).
  - reflexivity.
  - apply Exists_cons_tl, Exists_cons_hd. reflexivity.
Defined.

End Cell.
